(** * A model of the image upload service [app.py]

    The service is a Flask application with three routes
    ([POST /agregarImagen], [GET /verImagenes], [GET /verImagen/<filename>])
    and a few helpers ([allowed_file], [generar_csv]).  Every route is a
    thin layer over the filesystem, so the model consists of

    - Python's [str] operations the code uses ([in], [rsplit], [lower],
      [split], [join], [startswith]);
    - a filesystem with POSIX path resolution, on which [open],
      [os.listdir] and [os.path.isfile] are defined, each with the
      failures the operating system may impose on it;
    - the library calls of the routes ([os.path.join],
      [posixpath.normpath], Werkzeug's [safe_join] and
      [send_from_directory], the rule of the URL, Flask's handling of an
      exception that leaves a view);
    - [csv.DictWriter] and [io.BytesIO] as the helpers use them;
    - the functions of [app.py] themselves.

    Conventions.  A Python [str] is a [string] whose characters are the
    code points below 256; [bytes] is [list byte].  A JSON response is kept
    as the JSON value given to [jsonify], not as its serialisation.  The
    filesystem has directories and regular files (no symbolic links), and
    the paths are POSIX paths (separator [/]). *)

From Stdlib Require Import Strings.Ascii Strings.String Strings.Byte.
From Stdlib Require Import NArith ZArith Lia DecimalString.
From stdpp Require Import gmap strings list fin_maps.

(* ================================================================== *)
(** * Python values: exceptions, results, strings                      *)
(* ================================================================== *)

(** Error numbers of the system calls behind [open] and [os.listdir]. *)
Inductive errno :=
| EPERM | ENOENT | EIO | EACCES | ENOTDIR | EISDIR | ENOSPC | EROFS.

Definition errno_number (c : errno) : string :=
  match c with
  | EPERM => "1" | ENOENT => "2" | EIO => "5" | EACCES => "13"
  | ENOTDIR => "20" | EISDIR => "21" | ENOSPC => "28" | EROFS => "30"
  end.

Definition strerror (c : errno) : string :=
  match c with
  | EPERM => "Operation not permitted"
  | ENOENT => "No such file or directory"
  | EIO => "Input/output error"
  | EACCES => "Permission denied"
  | ENOTDIR => "Not a directory"
  | EISDIR => "Is a directory"
  | ENOSPC => "No space left on device"
  | EROFS => "Read-only file system"
  end.

(** The exceptions that can be raised inside the functions of [app.py].
    [OSError] stands for the whole [OSError] family: Python picks the
    subclass from the error number ([FileNotFoundError] for [ENOENT],
    [IsADirectoryError] for [EISDIR], ...).  [NotFound] is
    [werkzeug.exceptions.NotFound], an [HTTPException]; it is not an
    [OSError]. *)
Inductive exn :=
| OSError (code : errno) (filename : option string)
| NotFound
| IndexError (msg : string)
| ValueError (msg : string).

(** [isinstance(e, FileNotFoundError)] *)
Definition is_FileNotFoundError (e : exn) : bool :=
  match e with
  | OSError ENOENT _ => true
  | _ => false
  end.

(** [repr] of a [str] of code points below 256.  The quotes are single,
    or double when the string has an apostrophe and no double quote; the
    backslash, the quote in use, tab, newline and carriage return are
    escaped with a backslash, every other character that is not printable
    is written [\xNN]. *)
Definition apostrophe : ascii := "039"%char.

Definition double_quote : ascii := "034"%char.

Definition backslash : ascii := "092"%char.

Fixpoint has_char (c : ascii) (s : string) : bool :=
  match s with
  | EmptyString => false
  | String x rest => bool_decide (x = c) || has_char c rest
  end.

Definition hex_digit (n : N) : ascii :=
  if (n <? 10)%N then ascii_of_N (48 + n) else ascii_of_N (87 + n).

(** [str.isprintable] on one code point below 256. *)
Definition printable (c : ascii) : bool :=
  let n := N_of_ascii c in
  ((32 <=? n) && (n <? 127) || (161 <=? n) && negb (n =? 173))%N.

Definition repr_char (quote c : ascii) : string :=
  let n := N_of_ascii c in
  if bool_decide (c = backslash) then String backslash (String backslash EmptyString)
  else if bool_decide (c = quote) then String backslash (String quote EmptyString)
  else if (n =? 9)%N then String backslash "t"
  else if (n =? 10)%N then String backslash "n"
  else if (n =? 13)%N then String backslash "r"
  else if printable c then String c EmptyString
  else String backslash
         (String "x" (String (hex_digit (n / 16)) (String (hex_digit (n mod 16)) EmptyString))).

Fixpoint repr_body (quote : ascii) (s : string) : string :=
  match s with
  | EmptyString => EmptyString
  | String c rest => repr_char quote c +:+ repr_body quote rest
  end.

Definition repr_str (s : string) : string :=
  let quote :=
    if has_char apostrophe s && negb (has_char double_quote s)
    then double_quote else apostrophe in
  String quote (repr_body quote s +:+ String quote EmptyString).

(** [str(e)] *)
Definition exn_str (e : exn) : string :=
  match e with
  | OSError c None => "[Errno " +:+ errno_number c +:+ "] " +:+ strerror c
  | OSError c (Some f) =>
      "[Errno " +:+ errno_number c +:+ "] " +:+ strerror c +:+ ": " +:+ repr_str f
  | NotFound =>
      "404 Not Found: The requested URL was not found on the server. If you entered the URL manually please check your spelling and try again."
  | IndexError m => m
  | ValueError m => m
  end.

(** The outcome of a Python expression: a value, or a raised exception. *)
Inductive result (A : Type) : Type :=
| Ok (a : A)
| Raise (e : exn).
Arguments Ok {A} a.
Arguments Raise {A} e.

#[global] Instance result_ret : MRet result := fun A a => Ok a.
#[global] Instance result_bind : MBind result := fun A B f m =>
  match m with
  | Ok a => f a
  | Raise e => Raise e
  end.

(** [try: body  except C: handler], where [catches e] says whether [e] is
    an instance of [C]. *)
Definition try_except {A} (body : result A) (catches : exn -> bool)
    (handler : exn -> result A) : result A :=
  match body with
  | Ok a => Ok a
  | Raise e => if catches e then handler e else Raise e
  end.

Module Str.

(** [c in s] for a one-character string [c] *)
Fixpoint contains_char (c : ascii) (s : string) : bool :=
  match s with
  | EmptyString => false
  | String x rest => if decide (x = c) then true else contains_char c rest
  end.

(** [s.startswith(p)] *)
Definition startswith (s p : string) : bool := String.prefix p s.

(** [needle in hay] *)
Fixpoint contains (needle hay : string) : bool :=
  String.prefix needle hay ||
  match hay with
  | EmptyString => false
  | String _ rest => contains needle rest
  end.

(** [s.split(sep)] for a one-character separator: never empty. *)
Fixpoint split (sep : ascii) (s : string) : list string :=
  match s with
  | EmptyString => [EmptyString]
  | String c rest =>
      if decide (c = sep) then EmptyString :: split sep rest
      else match split sep rest with
           | hd :: tl => String c hd :: tl
           | [] => [String c EmptyString]
           end
  end.

(** [sep.join(l)] *)
Fixpoint join (sep : string) (l : list string) : string :=
  match l with
  | [] => EmptyString
  | [x] => x
  | x :: rest => x +:+ sep +:+ join sep rest
  end.

(** The cut of [s] at its last [sep]: what is before and what is after. *)
Fixpoint rcut (sep : ascii) (s : string) : option (string * string) :=
  match s with
  | EmptyString => None
  | String c rest =>
      match rcut sep rest with
      | Some (before, after) => Some (String c before, after)
      | None => if decide (c = sep) then Some (EmptyString, rest) else None
      end
  end.

(** [s.rsplit(sep, 1)] *)
Definition rsplit1 (sep : ascii) (s : string) : list string :=
  match rcut sep s with
  | Some (before, after) => [before; after]
  | None => [s]
  end.

(** [str.lower] on one code point below 256: the letters [A]-[Z] and the
    capital letters of Latin-1 ([U+00C0]-[U+00DE] but the multiplication
    sign [U+00D7]) move up by 32. *)
Definition lower_char (c : ascii) : ascii :=
  let n := N_of_ascii c in
  if ((65 <=? n) && (n <=? 90))%N then ascii_of_N (n + 32)
  else if ((192 <=? n) && (n <=? 222) && negb (n =? 215))%N
       then ascii_of_N (n + 32)
       else c.

(** [s.lower()] *)
Fixpoint lower (s : string) : string :=
  match s with
  | EmptyString => EmptyString
  | String c rest => String (lower_char c) (lower rest)
  end.

(** [l[i]] on a list: [IndexError] out of range. *)
Definition index {A} (l : list A) (i : nat) : result A :=
  match l !! i with
  | Some x => Ok x
  | None => Raise (IndexError "list index out of range")
  end.

End Str.

(* ================================================================== *)
(** * [posixpath] and Werkzeug's [safe_join]                           *)
(* ================================================================== *)

Module Posixpath.

(** [s.endswith("/")] *)
Fixpoint ends_with_sep (s : string) : bool :=
  match s with
  | EmptyString => false
  | String c EmptyString => bool_decide (c = "/"%char)
  | String _ rest => ends_with_sep rest
  end.

(** [os.path.isabs] *)
Definition isabs (s : string) : bool := Str.startswith s "/".

(** [os.path.join(a, b)]: an absolute [b] replaces [a]; otherwise [b] is
    appended, after a separator unless [a] is empty or ends with one. *)
Definition join (a b : string) : string :=
  if Str.startswith b "/" then b
  else if bool_decide (a = "") || ends_with_sep a then a +:+ b
  else a +:+ "/" +:+ b.

(** The number of slashes [normpath] keeps in front: POSIX allows one or
    two, three or more count as one. *)
Definition initial_slashes (path : string) : nat :=
  if Str.startswith path "/" then
    if Str.startswith path "//" && negb (Str.startswith path "///") then 2 else 1
  else 0.

(** One turn of the loop of [normpath] over the components. *)
Definition normpath_step (slashes : nat) (new_comps : list string)
    (comp : string) : list string :=
  if bool_decide (comp = "") || bool_decide (comp = ".") then new_comps
  else if bool_decide (comp ≠ "..")
          || (bool_decide (slashes = 0) && bool_decide (new_comps = []))
          || bool_decide (last new_comps = Some "..")
       then new_comps ++ [comp]
       else removelast new_comps.

Fixpoint repeat_sep (n : nat) : string :=
  match n with
  | O => EmptyString
  | S k => String "/" (repeat_sep k)
  end.

(** [posixpath.normpath] *)
Definition normpath (path : string) : string :=
  if bool_decide (path = "") then "."
  else
    let slashes := initial_slashes path in
    let comps := Str.split "/" path in
    let new_comps := foldl (normpath_step slashes) [] comps in
    let path := repeat_sep slashes +:+ Str.join "/" new_comps in
    if bool_decide (path = "") then "." else path.

End Posixpath.

(** [werkzeug.security._os_alt_seps]: the separators of the platform other
    than [/]; there is none on POSIX. *)
Definition os_alt_seps : list string := [].

(** [werkzeug.security.safe_join(directory, filename)]: [None] when the
    untrusted [filename] would leave [directory]. *)
Definition safe_join (directory filename : string) : option string :=
  let directory := if bool_decide (directory = "") then "." else directory in
  let filename :=
    if bool_decide (filename ≠ "") then Posixpath.normpath filename else filename in
  if existsb (fun sep => Str.contains sep filename) os_alt_seps
     || Posixpath.isabs filename
     || bool_decide (filename = "..")
     || Str.startswith filename "../"
  then None
  else Some (Posixpath.join directory filename).

(* ================================================================== *)
(** * The filesystem                                                   *)
(* ================================================================== *)

(** A node is a regular file with its bytes, or a directory.  The
    filesystem maps the location of every node (the names from the root
    down) to the node; the root directory is at [[]]. *)
Inductive node :=
| File (content : list byte)
| Dir.

Abbreviation filesystem := (gmap (list string) node).

(** Where the process runs: its working directory, against which [open]
    and [os.listdir] resolve a relative path, and the directory of the
    application ([app.root_path]), against which Flask's
    [send_from_directory] resolves one. *)
Record env := {
  cwd : list string;
  root_path : list string
}.

(** Failures the operating system imposes from outside the model (access
    rights, a full or read-only disk, an I/O error, a file removed by
    another process), per call: when [open] for writing fails, when
    [write] fails and how many bytes had reached the file, when
    [os.listdir] fails, when the [stat] behind [os.path.isfile] fails, when
    opening or reading a file to send fails. *)
Record faults := {
  open_fault : option errno;
  write_fault : option (errno * nat);
  listdir_fault : option errno;
  stat_fault : option errno;
  read_fault : option errno
}.

Definition no_faults : faults :=
  {| open_fault := None; write_fault := None; listdir_fault := None;
     stat_fault := None; read_fault := None |}.

Module Fs.

(** Following one component from the directory at [cur]. *)
Definition step (cur : list string) (c : string) : list string :=
  if bool_decide (c = "") || bool_decide (c = ".") then cur
  else if bool_decide (c = "..") then removelast cur
  else cur ++ [c].

(** Following components one by one; each is looked up in a node that
    has to be a directory. *)
Fixpoint walk (fs : filesystem) (cur : list string) (comps : list string)
    : errno + list string :=
  match comps with
  | [] => inr cur
  | c :: rest =>
      match fs !! cur with
      | Some Dir => walk fs (step cur c) rest
      | Some (File _) => inl ENOTDIR
      | None => inl ENOENT
      end
  end.

(** Path resolution from the directory [base]: the location the path
    names.  The last component itself need not exist. *)
Definition namei (fs : filesystem) (base : list string) (path : string)
    : errno + list string :=
  if bool_decide (path = "") then inl ENOENT
  else walk fs (if Posixpath.isabs path then [] else base) (Str.split "/" path).

(** [q] as a child of [p]: its name. *)
Fixpoint child_name (p q : list string) : option string :=
  match p, q with
  | [], [n] => Some n
  | x :: p', y :: q' => if bool_decide (x = y) then child_name p' q' else None
  | _, _ => None
  end.

(** The names of the entries of the directory at [p].  The order of the
    names is that of the locations in the map; [os.listdir] promises no
    order, and the statements about a listing are about the names in it,
    not about their order. *)
Definition entries (fs : filesystem) (p : list string) : list string :=
  omap (child_name p) (elements (dom fs)).

End Fs.

(** Code that reads and changes the filesystem and may raise. *)
Definition io (A : Type) : Type := filesystem -> result A * filesystem.

Definition io_ret {A} (a : A) : io A := fun fs => (Ok a, fs).

Definition io_bind {A B} (m : io A) (k : A -> io B) : io B := fun fs =>
  match m fs with
  | (Ok a, fs') => k a fs'
  | (Raise e, fs') => (Raise e, fs')
  end.

(** [try: body  except C as e: handler(e)] *)
Definition io_try {A} (body : io A) (catches : exn -> bool)
    (handler : exn -> io A) : io A := fun fs =>
  match body fs with
  | (Ok a, fs') => (Ok a, fs')
  | (Raise e, fs') => if catches e then handler e fs' else (Raise e, fs')
  end.

#[global] Instance io_mret : MRet io := @io_ret.
#[global] Instance io_mbind : MBind io := fun A B k m => io_bind m k.

Module Os.

(** [open(path, 'wb')]: the file is created, or emptied when it exists;
    the result is the location of the open file. *)
Definition open_wb (e : env) (fl : faults) (path : string) : io (list string) :=
  fun fs =>
    match open_fault fl with
    | Some c => (Raise (OSError c (Some path)), fs)
    | None =>
        match Fs.namei fs (cwd e) path with
        | inl c => (Raise (OSError c (Some path)), fs)
        | inr p =>
            match fs !! p with
            | Some Dir => (Raise (OSError EISDIR (Some path)), fs)
            | _ => (Ok p, <[p := File []]> fs)
            end
        end
    end.

(** [f.write(data)] followed by the close of the [with] block, on the
    file just opened at [p]. *)
Definition write_close (fl : faults) (p : list string) (data : list byte)
    : io unit :=
  fun fs =>
    match write_fault fl with
    | Some (c, n) => (Raise (OSError c None), <[p := File (take n data)]> fs)
    | None => (Ok tt, <[p := File data]> fs)
    end.

(** [os.listdir(path)] *)
Definition listdir (e : env) (fl : faults) (path : string) : io (list string) :=
  fun fs =>
    match listdir_fault fl with
    | Some c => (Raise (OSError c (Some path)), fs)
    | None =>
        match Fs.namei fs (cwd e) path with
        | inl c => (Raise (OSError c (Some path)), fs)
        | inr p =>
            match fs !! p with
            | Some Dir => (Ok (Fs.entries fs p), fs)
            | Some (File _) => (Raise (OSError ENOTDIR (Some path)), fs)
            | None => (Raise (OSError ENOENT (Some path)), fs)
            end
        end
    end.

(** [os.path.isfile(path)], with [path] taken from the directory [base]:
    false also when [stat] fails. *)
Definition isfile (fl : faults) (fs : filesystem) (base : list string)
    (path : string) : bool :=
  match stat_fault fl with
  | Some _ => false
  | None =>
      match Fs.namei fs base path with
      | inr p => match fs !! p with Some (File _) => true | _ => false end
      | inl _ => false
      end
  end.

(** [open(path, 'rb').read()] *)
Definition read_file (fl : faults) (fs : filesystem) (base : list string)
    (path : string) : result (list byte) :=
  match read_fault fl with
  | Some c => Raise (OSError c (Some path))
  | None =>
      match Fs.namei fs base path with
      | inl c => Raise (OSError c (Some path))
      | inr p =>
          match fs !! p with
          | Some (File content) => Ok content
          | Some Dir => Raise (OSError EISDIR (Some path))
          | None => Raise (OSError ENOENT (Some path))
          end
      end
  end.

End Os.

(* ================================================================== *)
(** * Flask: requests, responses, sending files                        *)
(* ================================================================== *)

(** The value given to [jsonify]. *)
#[warnings="-register-all"]
Inductive json :=
| JStr (s : string)
| JList (l : list json)
| JObj (fields : list (string * json)).

(** The body of a response: a JSON document, the bytes of a file, or the
    HTML page Werkzeug renders for an HTTP error. *)
Inductive body :=
| BJson (j : json)
| BFile (content : list byte)
| BHtmlError (name : string).

Record response := {
  status : N;
  payload : body
}.

(** What a view can read of the request: the query string, the headers and
    [request.data], the raw bytes of a body that is not a form. *)
Record request := {
  args : list (string * string);
  headers : list (string * string);
  data : list byte
}.

(** The media types Werkzeug parses as a form. *)
Definition form_mimetypes : list string :=
  ["multipart/form-data"; "application/x-www-form-urlencoded"].

(** [request.data] for a body sent with the media type [mimetype]:
    Werkzeug reads a form into [request.form] and [request.files] and
    leaves nothing of it in [request.data]; any other body is there as it
    was sent. *)
Definition request_data (mimetype : string) (sent : list byte) : list byte :=
  if bool_decide (mimetype ∈ form_mimetypes) then [] else sent.

(** The request a view sees when a client sends the bytes [sent] with the
    media type [mimetype] and no query string. *)
Definition request_of (mimetype : string) (sent : list byte) : request :=
  {| args := [];
     headers := [("Content-Type", mimetype)];
     data := request_data mimetype sent |}.

(** [jsonify(j)]: a response with status 200. *)
Definition jsonify (j : json) : response :=
  {| status := 200; payload := BJson j |}.

(** The pair [response, code] a view returns. *)
Definition with_status (r : response) (code : N) : response :=
  {| status := code; payload := payload r |}.

(** [send_file(path)] for a request with no condition and no range:
    status 200 with the bytes of the file. *)
Definition send_file (fl : faults) (fs : filesystem) (base : list string)
    (path : string) : result response :=
  content ← Os.read_file fl fs base path;
  Ok {| status := 200; payload := BFile content |}.

(** [flask.send_from_directory(directory, path)].  Werkzeug joins the two
    with [safe_join], Flask places the result under [app.root_path], and
    anything but an existing regular file raises [NotFound]. *)
Definition send_from_directory (e : env) (fl : faults) (directory path : string)
    (fs : filesystem) : result response :=
  match safe_join directory path with
  | None => Raise NotFound
  | Some path_str =>
      if Os.isfile fl fs (root_path e) path_str
      then send_file fl fs (root_path e) path_str
      else Raise NotFound
  end.

(** The page Flask answers when [NotFound] leaves a view, or when the URL
    matches no rule. *)
Definition not_found_page : response :=
  {| status := 404; payload := BHtmlError "Not Found" |}.

(** The variable part of the rule [/verImagen/<filename>].  Its converter
    is Werkzeug's default, [string]: one segment of the path, not empty
    and without a slash. *)
Definition string_converter (segment : string) : bool :=
  negb (bool_decide (segment = "")) && negb (Str.contains_char "/" segment).

(** What Flask answers for the outcome of a view: the response returned;
    for an [HTTPException] that left the view, the page of that error; for
    any other exception, an internal server error. *)
Definition flask_response (r : result response) : response :=
  match r with
  | Ok resp => resp
  | Raise NotFound => {| status := 404; payload := BHtmlError "Not Found" |}
  | Raise _ => {| status := 500; payload := BHtmlError "Internal Server Error" |}
  end.

(* ================================================================== *)
(** * [app.py]                                                         *)
(* ================================================================== *)

(** [UPLOAD_FOLDER], which is also what [app.config['UPLOAD_FOLDER']]
    holds. *)
Definition UPLOAD_FOLDER : string := "uploads".

Definition ALLOWED_EXTENSIONS : gset string := {[ "jpg"; "jpeg"; "png" ]}.

(** [def allowed_file(filename)]; the right operand of [and] is evaluated
    only when the left one is true. *)
Definition allowed_file (filename : string) : result bool :=
  if Str.contains_char "." filename then
    ext ← Str.index (Str.rsplit1 "." filename) 1;
    Ok (bool_decide (Str.lower ext ∈ ALLOWED_EXTENSIONS))
  else Ok false.

(** The [with open(filepath, 'wb') as img_file: img_file.write(...)] block. *)
Definition with_open_write (e : env) (fl : faults) (filepath : string)
    (content : list byte) : io unit :=
  img_file ← Os.open_wb e fl filepath;
  Os.write_close fl img_file content.

(** [def agregar_imagen()], the view of [POST /agregarImagen]. *)
Definition agregar_imagen (e : env) (fl : faults) (req : request) : io response :=
  match data req with
  | [] => mret (with_status (jsonify (JObj [("error", JStr "No image data received")])) 400)
  | _ :: _ =>
      let filename := "received_image.jpg" in
      let filepath := Posixpath.join UPLOAD_FOLDER filename in
      io_try
        (_ ← with_open_write e fl filepath (data req);
         mret (with_status
                 (jsonify (JObj [("message",
                                  JStr ("Image successfully saved at " +:+ filepath))]))
                 200))
        (fun _ => true)
        (fun exc =>
           mret (with_status
                   (jsonify (JObj [("error",
                                    JStr ("Failed to save image: " +:+ exn_str exc))]))
                   500))
  end.

(** The letter a with acute accent, [U+00E1]. *)
Definition a_acute : string := String "225"%char EmptyString.

(** [def ver_imagenes()], the view of [GET /verImagenes]. *)
Definition ver_imagenes (e : env) (fl : faults) : io response :=
  io_try
    (imagenes ← Os.listdir e fl UPLOAD_FOLDER;
     let imagenes := map (fun img => img) imagenes in
     mret (with_status (jsonify (JObj [("imagenes", JList (map JStr imagenes))])) 200))
    (fun _ => true)
    (fun exc =>
       mret (with_status
               (jsonify (JObj [("error",
                                JStr ("Error al obtener las im" +:+ a_acute +:+ "genes: "
                                      +:+ exn_str exc))]))
               500)).

(** [def ver_imagen(filename)], the view of [GET /verImagen/<filename>]. *)
Definition ver_imagen (e : env) (fl : faults) (filename : string)
    (fs : filesystem) : result response :=
  try_except
    (send_from_directory e fl UPLOAD_FOLDER filename fs)
    is_FileNotFoundError
    (fun _ => Ok (with_status (jsonify (JObj [("error", JStr "Imagen no encontrada")])) 404)).

(** The three routes as a client sees them.  For the image route,
    [segment] is what follows [/verImagen/] in the path of the URL; when
    the rule does not match it, no view runs. *)
Definition POST_agregarImagen (e : env) (fl : faults) (req : request)
    (fs : filesystem) : response * filesystem :=
  let '(r, fs') := agregar_imagen e fl req fs in (flask_response r, fs').

Definition GET_verImagenes (e : env) (fl : faults) (fs : filesystem) : response :=
  flask_response (fst (ver_imagenes e fl fs)).

Definition GET_verImagen (e : env) (fl : faults) (segment : string)
    (fs : filesystem) : response :=
  if string_converter segment
  then flask_response (ver_imagen e fl segment fs)
  else not_found_page.

(* ================================================================== *)
(** * [csv.DictWriter] and [generar_csv]                               *)
(* ================================================================== *)

(** The values of a row: [None], a [str], an [int], a [bool]. *)
Inductive pyval :=
| PNone
| PStr (s : string)
| PInt (z : Z)
| PBool (b : bool).

(** A [dict] with [str] keys: its items in insertion order. *)
Abbreviation pydict := (list (string * pyval)).

Module Csv.

Definition quotechar : ascii := "034"%char.
Definition delimiter : ascii := ","%char.
Definition CR : ascii := "013"%char.
Definition LF : ascii := "010"%char.
Definition lineterminator : string := String CR (String LF EmptyString).

(** The text the writer makes of a value: nothing for [None], the string
    itself, [str(v)] for the rest. *)
Definition text_of (v : pyval) : string :=
  match v with
  | PNone => EmptyString
  | PStr s => s
  | PInt z => NilZero.string_of_int (Z.to_int z)
  | PBool true => "True"
  | PBool false => "False"
  end.

(** A character that forces quotes around its field ([QUOTE_MINIMAL]): the
    delimiter, the quote character, a character of the line terminator. *)
Definition special (c : ascii) : bool :=
  bool_decide (c = delimiter) || bool_decide (c = quotechar)
  || Str.contains_char c lineterminator.

Fixpoint needs_quotes (s : string) : bool :=
  match s with
  | EmptyString => false
  | String c rest => special c || needs_quotes rest
  end.

(** The characters of a field, each quote character doubled. *)
Fixpoint double_quotes (s : string) : string :=
  match s with
  | EmptyString => EmptyString
  | String c rest =>
      if bool_decide (c = quotechar)
      then String quotechar (String quotechar (double_quotes rest))
      else String c (double_quotes rest)
  end.

(** One field as it stands in the record. *)
Definition field (s : string) : string :=
  if needs_quotes s
  then String quotechar (double_quotes s +:+ String quotechar EmptyString)
  else double_quotes s.

(** [writer.writerow(fields)]: the line it writes.  A record of one empty
    field is written as a pair of quotes. *)
Definition writerow (fields : list pyval) : string :=
  let record := Str.join (String delimiter EmptyString) (map (fun v => field (text_of v)) fields) in
  let record :=
    if bool_decide (fields ≠ []) && bool_decide (record = EmptyString)
    then String quotechar (String quotechar EmptyString)
    else record in
  record +:+ lineterminator.

(** [rowdict.keys()] and [rowdict.get(key, default)] *)
Definition keys (d : pydict) : list string := map fst d.

Fixpoint get (d : pydict) (key : string) (default : pyval) : pyval :=
  match d with
  | [] => default
  | (k, v) :: rest => if bool_decide (k = key) then v else get rest key default
  end.

(** [DictWriter._dict_to_list(rowdict)] with [extrasaction="raise"] and
    [restval=""].  Python takes the wrong fields from a set difference and
    names them in the message in the order of that set; here they stand in
    the order of the row.  The statements rely on the exception being a
    [ValueError], not on the text of its message. *)
Definition dict_to_list (fieldnames : list string) (rowdict : pydict)
    : result (list pyval) :=
  let wrong_fields := filter (fun k => k ∉ fieldnames) (keys rowdict) in
  match wrong_fields with
  | [] => Ok (map (fun key => get rowdict key (PStr EmptyString)) fieldnames)
  | _ :: _ =>
      Raise (ValueError ("dict contains fields not in fieldnames: "
                         +:+ Str.join ", " (map repr_str wrong_fields)))
  end.

(** [DictWriter.writerow(rowdict)], appending to the text written so far. *)
Definition DictWriter_writerow (fieldnames : list string) (rowdict : pydict)
    (output : string) : result string :=
  fields ← dict_to_list fieldnames rowdict;
  Ok (output +:+ writerow fields).

(** [DictWriter.writeheader()]: the row [dict(zip(fieldnames, fieldnames))]. *)
Definition DictWriter_writeheader (fieldnames : list string) (output : string)
    : result string :=
  let header := zip fieldnames (map PStr fieldnames) in
  DictWriter_writerow fieldnames header output.

End Csv.

(** [def generar_csv(data)] *)
Definition generar_csv (rows : list pydict) : result string :=
  match rows with
  | [] => Ok EmptyString
  | first :: _ =>
      let fieldnames := Csv.keys first in
      output ← Csv.DictWriter_writeheader fieldnames EmptyString;
      foldl (fun acc row => output ← acc; Csv.DictWriter_writerow fieldnames row output)
            (Ok output) rows
  end.

(* ================================================================== *)
(** * [io.BytesIO] and [build_csv]                                     *)
(* ================================================================== *)

#[global] Instance byte_eq_decision : EqDecision byte := Byte.byte_eq_dec.

Module BytesIO.

(** An in-memory binary stream: its content and the position of the next
    read or write. *)
Record t := {
  buffer : list byte;
  position : nat
}.

(** [io.BytesIO()] *)
Definition new : t := {| buffer := []; position := 0 |}.

(** [stream.write(data)]: the bytes go in at the position, over what was
    there, and the position moves behind them. *)
Definition write (data : list byte) (stream : t) : t :=
  {| buffer := take (position stream) (buffer stream) ++ data
               ++ drop (position stream + length data) (buffer stream);
     position := position stream + length data |}.

(** [stream.seek(offset)] *)
Definition seek (offset : nat) (stream : t) : t :=
  {| buffer := buffer stream; position := offset |}.

Definition newline : byte := x0a.

(** The lines of [bytes], each with the newline that ends it; the last one
    may have none. *)
Fixpoint lines (bytes : list byte) : list (list byte) :=
  match bytes with
  | [] => []
  | b :: rest =>
      if bool_decide (b = newline) then [b] :: lines rest
      else match lines rest with
           | [] => [[b]]
           | line :: more => (b :: line) :: more
           end
  end.

(** [for line in stream]: [readline] from the position on, until it
    returns nothing. *)
Definition iterate (stream : t) : list (list byte) :=
  lines (drop (position stream) (buffer stream)).

End BytesIO.

(** [def build_csv(df_pivoted)].  What [df_pivoted.to_csv(output, ...)]
    writes is the business of pandas and of the table; it is the parameter
    [written].  The generator is the sequence of the values it yields. *)
Definition build_csv (written : list byte) : list (list byte) :=
  let output := BytesIO.new in
  let output := BytesIO.write written output in
  let output := BytesIO.seek 0 output in
  BytesIO.iterate output.

(* ================================================================== *)
(** * Vocabulary of the statements                                     *)
(* ================================================================== *)

(** The reading of [allowed_file] in words: the name has a dot, and what
    stands after its last dot is, in lower case, [jpg], [jpeg] or [png]. *)
Definition allowed_by_extension (filename : string) : Prop :=
  ∃ before ext,
    filename = before +:+ String "." ext
    ∧ Str.contains_char "." ext = false
    ∧ (Str.lower ext = "jpg" ∨ Str.lower ext = "jpeg" ∨ Str.lower ext = "png").

(** The upload directory under [base], and the file the upload route
    writes there. *)
Definition upload_dir (base : list string) : list string := base ++ ["uploads"].

Definition received_image (base : list string) : list string :=
  base ++ ["uploads"; "received_image.jpg"].

(** A name an entry of a directory can bear. *)
Definition entry_name (c : string) : Prop :=
  c ≠ "" ∧ c ≠ "." ∧ c ≠ ".." ∧ Str.contains_char "/" c = false.


(** The location of the file [send_from_directory] sends for [filename],
    if it sends one. *)
Definition served_location (e : env) (filename : string) (fs : filesystem)
    : option (list string) :=
  match safe_join UPLOAD_FOLDER filename with
  | None => None
  | Some path_str =>
      match Fs.namei fs (root_path e) path_str with
      | inr p => match fs !! p with Some (File _) => Some p | _ => None end
      | inl _ => None
      end
  end.


(** A JSON response with one field. *)
Definition json_response (code : N) (key : string) (value : json) : response :=
  {| status := code; payload := BJson (JObj [(key, value)]) |}.

(** The page Flask answers when an exception that is no HTTP error leaves
    a view. *)
Definition internal_error_page : response :=
  {| status := 500; payload := BHtmlError "Internal Server Error" |}.

(** What the image route answers when opening or reading the file it
    found fails: the JSON of the [except] clause when the file is gone,
    the page of an internal error for any other failure. *)
Definition read_failure_response (c : errno) : response :=
  match c with
  | ENOENT => json_response 404 "error" (JStr "Imagen no encontrada")
  | _ => internal_error_page
  end.

(** Rows that all have the keys of every other row. *)
Definition uniform (rows : list pydict) : Prop :=
  ∀ r1 r2, r1 ∈ rows → r2 ∈ rows → ∀ k, k ∈ Csv.keys r1 ↔ k ∈ Csv.keys r2.

(** The header record of a CSV text with the columns [names]. *)
Definition csv_header (names : list string) : string :=
  Csv.writerow (map PStr names).

(** The record of [row] under the columns [names]. *)
Definition csv_record (names : list string) (row : pydict) : string :=
  Csv.writerow (map (fun key => Csv.get row key (PStr EmptyString)) names).

(** The records of [rows] under the columns [names], one after another. *)
Definition csv_body (names : list string) (rows : list pydict) : string :=
  foldr (fun row rest => csv_record names row +:+ rest) EmptyString rows.

(** The reading of a CSV text (RFC 4180, as [csv.reader] does it with the
    [excel] dialect): fields are separated by commas and a record ends at
    a line end; a field that starts with a quote runs to its closing quote,
    commas and line ends included, and a quote doubled inside it stands
    for one quote. *)
Module CsvReader.

Definition quote : ascii := "034"%char.
Definition comma : ascii := ","%char.

Definition line_end (c : ascii) : bool :=
  bool_decide (c = "013"%char) || bool_decide (c = "010"%char).

(** Where the reader stands: at the start of a field, inside a field
    without quotes, inside a quoted field, behind a quote met inside a
    quoted field. *)
Inductive state := StartField | InField | InQuoted | QuoteInQuoted.

(** The fields of a record as the pair of the first one and the others. *)
Definition end_record : string * list string := (EmptyString, []).

Definition push (c : ascii) (r : string * list string) : string * list string :=
  (String c r.1, r.2).

Definition next_field (r : string * list string) : string * list string :=
  (EmptyString, r.1 :: r.2).

(** The fields from the position of the reader to the end of the record. *)
Fixpoint scan (st : state) (s : string) : string * list string :=
  match s with
  | EmptyString => end_record
  | String c rest =>
      match st with
      | StartField =>
          if bool_decide (c = comma) then next_field (scan StartField rest)
          else if line_end c then end_record
          else if bool_decide (c = quote) then scan InQuoted rest
          else push c (scan InField rest)
      | InField =>
          if bool_decide (c = comma) then next_field (scan StartField rest)
          else if line_end c then end_record
          else push c (scan InField rest)
      | InQuoted =>
          if bool_decide (c = quote) then scan QuoteInQuoted rest
          else push c (scan InQuoted rest)
      | QuoteInQuoted =>
          if bool_decide (c = quote) then push c (scan InQuoted rest)
          else if bool_decide (c = comma) then next_field (scan StartField rest)
          else if line_end c then end_record
          else push c (scan InField rest)
      end
  end.

(** A text that starts with an empty line, or is empty. *)
Definition blank (text : string) : bool :=
  match text with
  | EmptyString => true
  | String c _ => line_end c
  end.

(** The header row of a CSV text: the fields of its first record; an
    empty line has no field. *)
Definition header_row (text : string) : list string :=
  if blank text then []
  else let record := scan StartField text in record.1 :: record.2.

(** A text at which a field without quotes ends. *)
Definition at_field_end (text : string) : Prop :=
  match text with
  | EmptyString => True
  | String c _ => c = comma ∨ line_end c = true
  end.

(** A name that stands in a record as it is: no comma, no quote, no line
    end in it. *)
Fixpoint plain (s : string) : bool :=
  match s with
  | EmptyString => true
  | String c rest =>
      negb (bool_decide (c = comma)) && negb (bool_decide (c = quote))
      && negb (line_end c) && plain rest
  end.

(** The two characters that end a line of the text. *)
Definition crlf : string := String "013" (String "010" EmptyString).

End CsvReader.

(** A sample world: the application lives in [/srv/app], where it is
    started; the upload directory exists and is empty. *)
Definition demo_env : env :=
  {| cwd := ["srv"; "app"]; root_path := ["srv"; "app"] |}.

Definition demo_fs : filesystem :=
  {[ [] := Dir;
     ["etc"] := Dir;
     ["etc"; "passwd"] := File [x72; x6f; x6f; x74];
     ["srv"] := Dir;
     ["srv"; "app"] := Dir;
     ["srv"; "app"; "app.py"] := File [x66; x72; x6f; x6d];
     ["srv"; "app"; "uploads"] := Dir ]}.

(** The same world with more in the upload directory: a text file and a
    subdirectory holding an image. *)
Definition demo_fs_mixed : filesystem :=
  <[ ["srv"; "app"; "uploads"; "notes.txt"] := File [x68; x69] ]>
    (<[ ["srv"; "app"; "uploads"; "old"] := Dir ]>
       (<[ ["srv"; "app"; "uploads"; "old"; "cat.png"] := File [x89; x50] ]> demo_fs)).

(** The same world without an upload directory. *)
Definition demo_fs_bare : filesystem :=
  delete ["srv"; "app"; "uploads"] demo_fs.

(** The same application started from [/srv]: the working directory is
    not the directory of the application, and each has a directory
    [uploads]. *)
Definition away_env : env :=
  {| cwd := ["srv"]; root_path := ["srv"; "app"] |}.

Definition away_fs : filesystem :=
  <[ ["srv"; "uploads"] := Dir ]> demo_fs.

Definition demo_request (content : list byte) : request :=
  {| args := []; headers := []; data := content |}.

(* ================================================================== *)
(** * Strings                                                          *)
(* ================================================================== *)

Section StrFacts.

Implicit Types (s t : string) (c sep : ascii).

Lemma append_cons c s t : String c s +:+ t = String c (s +:+ t).
Proof. reflexivity. Qed.

Lemma append_nil_l t : "" +:+ t = t.
Proof. reflexivity. Qed.

Lemma append_nil_r s : s +:+ "" = s.
Proof.
  induction s as [|c s IH]; [done |]. by rewrite append_cons, IH.
Qed.

Lemma append_assoc s t u : (s +:+ t) +:+ u = s +:+ (t +:+ u).
Proof.
  induction s as [|c s IH]; [done |]. by rewrite !append_cons, IH.
Qed.

Lemma prefix_append s t : String.prefix s (s +:+ t) = true.
Proof.
  induction s as [|c s IH]; [by destruct t |].
  rewrite append_cons. simpl. destruct (ascii_dec c c); [done | congruence].
Qed.

Lemma contains_prefix needle hay :
  String.prefix needle hay = true → Str.contains needle hay = true.
Proof. intros H. destruct hay; cbn [Str.contains]; by rewrite H. Qed.

Lemma contains_append needle pre post :
  Str.contains needle (pre +:+ needle +:+ post) = true.
Proof.
  induction pre as [|c pre IH].
  - rewrite append_nil_l. apply contains_prefix, prefix_append.
  - rewrite append_cons. cbn [Str.contains]. rewrite IH. apply orb_true_r.
Qed.

Lemma contains_char_append c s t :
  Str.contains_char c (s +:+ t) = Str.contains_char c s || Str.contains_char c t.
Proof.
  induction s as [|x s IH]; [done |].
  rewrite append_cons. simpl. destruct (decide (x = c)); [done | apply IH].
Qed.

Lemma contains_char_after_sep sep s t :
  Str.contains_char sep (s +:+ String sep t) = true.
Proof.
  rewrite contains_char_append. simpl.
  destruct (decide (sep = sep)); [apply orb_true_r | done].
Qed.

Lemma rcut_None sep s :
  Str.rcut sep s = None ↔ Str.contains_char sep s = false.
Proof.
  induction s as [|x s IH]; simpl; [done |].
  destruct (Str.rcut sep s) as [[a b]|].
  - destruct (decide (x = sep)); [done |].
    split; [done |]. intros H. apply IH in H. done.
  - destruct (decide (x = sep)); [done |]. split; [intros _; by apply IH | done].
Qed.

Lemma rcut_Some sep s before after :
  Str.rcut sep s = Some (before, after) ↔
  s = before +:+ String sep after ∧ Str.contains_char sep after = false.
Proof.
  revert before after. induction s as [|x s IH]; intros before after; simpl.
  - split; [done |]. intros [H _]. destruct before; discriminate.
  - destruct (Str.rcut sep s) as [[a b]|] eqn:E.
    + destruct (proj1 (IH a b) eq_refl) as [-> Hb].
      split.
      * intros [= <- <-]. done.
      * intros [Heq Hafter]. destruct before as [|y before].
        -- rewrite append_nil_l in Heq. injection Heq as -> <-.
           by rewrite contains_char_after_sep in Hafter.
        -- rewrite append_cons in Heq. injection Heq as -> Heq.
           pose proof (proj2 (IH before after) (conj Heq Hafter)) as H.
           by injection H as -> ->.
    + apply rcut_None in E.
      destruct (decide (x = sep)) as [->|Hne].
      * split.
        -- intros [= <- <-]. done.
        -- intros [Heq Hafter]. destruct before as [|y before].
           ++ rewrite append_nil_l in Heq. by injection Heq as ->.
           ++ rewrite append_cons in Heq. injection Heq as -> ->.
              by rewrite contains_char_after_sep in E.
      * split; [done |]. intros [Heq Hafter].
        destruct before as [|y before].
        -- rewrite append_nil_l in Heq. by injection Heq as ->.
        -- rewrite append_cons in Heq. injection Heq as -> ->.
           by rewrite contains_char_after_sep in E.
Qed.

End StrFacts.

(* ================================================================== *)
(** * [allowed_file]                                                   *)
(* ================================================================== *)

Lemma allowed_file_cut filename before ext :
  Str.rcut "." filename = Some (before, ext) →
  allowed_file filename = Ok (bool_decide (Str.lower ext ∈ ALLOWED_EXTENSIONS)).
Proof.
  intros Hcut. unfold allowed_file, Str.rsplit1.
  destruct (Str.contains_char "." filename) eqn:Hdot.
  - by rewrite Hcut.
  - apply rcut_None in Hdot. congruence.
Qed.

Lemma allowed_file_no_dot filename :
  Str.contains_char "." filename = false → allowed_file filename = Ok false.
Proof. intros Hdot. unfold allowed_file. by rewrite Hdot. Qed.

Example allowed_file_upper : allowed_file "photo.JPG" = Ok true.
Proof. reflexivity. Qed.

Example allowed_file_two_dots : allowed_file "archive.tar.png" = Ok true.
Proof. reflexivity. Qed.

Example allowed_file_gif : allowed_file "anim.gif" = Ok false.
Proof. reflexivity. Qed.

Example allowed_file_bare_extension : allowed_file "jpg" = Ok false.
Proof. reflexivity. Qed.

Example allowed_file_trailing_dot : allowed_file "photo." = Ok false.
Proof. reflexivity. Qed.

(* ================================================================== *)
(** * The upload route                                                 *)
(* ================================================================== *)

Section Upload.

Implicit Types (fs : filesystem) (base : list string) (content : list byte).

Lemma filepath_eq :
  Posixpath.join UPLOAD_FOLDER "received_image.jpg" = "uploads/received_image.jpg".
Proof. reflexivity. Qed.

Lemma received_image_ne_base base : received_image base ≠ base.
Proof.
  unfold received_image. intros H. apply (f_equal length) in H.
  rewrite length_app in H. simpl in H. lia.
Qed.

Lemma received_image_ne_upload_dir base : received_image base ≠ upload_dir base.
Proof.
  unfold received_image, upload_dir. intros H. apply (f_equal length) in H.
  rewrite !length_app in H. simpl in H. lia.
Qed.

Lemma received_image_child base :
  received_image base = upload_dir base ++ ["received_image.jpg"].
Proof. unfold received_image, upload_dir. by rewrite <- app_assoc. Qed.

(** Where [uploads/received_image.jpg] leads from [base]. *)
Lemma namei_received fs base :
  Fs.namei fs base "uploads/received_image.jpg" =
  match fs !! base with
  | Some Dir =>
      match fs !! upload_dir base with
      | Some Dir => inr (received_image base)
      | Some (File _) => inl ENOTDIR
      | None => inl ENOENT
      end
  | Some (File _) => inl ENOTDIR
  | None => inl ENOENT
  end.
Proof.
  unfold Fs.namei.
  change (bool_decide ("uploads/received_image.jpg" = "")) with false.
  change (Posixpath.isabs "uploads/received_image.jpg") with false.
  change (Str.split "/" "uploads/received_image.jpg")
    with ["uploads"; "received_image.jpg"].
  cbn [Fs.walk].
  change (Fs.step base "uploads") with (upload_dir base).
  change (Fs.step (upload_dir base) "received_image.jpg")
    with (upload_dir base ++ ["received_image.jpg"]).
  by rewrite received_image_child.
Qed.

(** Where [uploads] leads from [base]. *)
Lemma namei_uploads fs base :
  Fs.namei fs base UPLOAD_FOLDER =
  match fs !! base with
  | Some Dir => inr (upload_dir base)
  | Some (File _) => inl ENOTDIR
  | None => inl ENOENT
  end.
Proof. reflexivity. Qed.

(** The write succeeds only in an existing upload directory, and leaves
    exactly the bytes written in the one file of the fixed name. *)
Lemma with_open_write_ok e fl fs fs' content :
  with_open_write e fl "uploads/received_image.jpg" content fs = (Ok tt, fs') →
  fs !! cwd e = Some Dir
  ∧ fs !! upload_dir (cwd e) = Some Dir
  ∧ fs' = <[received_image (cwd e) := File content]> fs.
Proof.
  unfold with_open_write, mbind, io_mbind, io_bind, Os.open_wb, Os.write_close.
  destruct (open_fault fl); [done |].
  rewrite namei_received.
  destruct (fs !! cwd e) as [[|]|]; try done.
  destruct (fs !! upload_dir (cwd e)) as [[|]|]; try done.
  destruct (fs !! received_image (cwd e)) as [[|]|]; try done;
    (destruct (write_fault fl) as [[c n]|]; [done |]);
    intros [= <-]; by rewrite insert_insert_eq.
Qed.

(** When the write goes through. *)
Lemma with_open_write_runs e fs content :
  fs !! cwd e = Some Dir →
  fs !! upload_dir (cwd e) = Some Dir →
  fs !! received_image (cwd e) ≠ Some Dir →
  with_open_write e no_faults "uploads/received_image.jpg" content fs
  = (Ok tt, <[received_image (cwd e) := File content]> fs).
Proof.
  intros Hcwd Hup Hfile.
  unfold with_open_write, mbind, io_mbind, io_bind, Os.open_wb, Os.write_close.
  simpl. rewrite namei_received, Hcwd, Hup.
  destruct (fs !! received_image (cwd e)) as [[|]|]; try done;
    by rewrite insert_insert_eq.
Qed.

(** The view on a body that is not empty: the two ways the [try] ends. *)
Lemma agregar_imagen_nonempty e fl req fs :
  data req ≠ [] →
  agregar_imagen e fl req fs =
  match with_open_write e fl "uploads/received_image.jpg" (data req) fs with
  | (Ok _, fs') =>
      (Ok (json_response 200 "message"
             (JStr "Image successfully saved at uploads/received_image.jpg")), fs')
  | (Raise exc, fs') =>
      (Ok (json_response 500 "error"
             (JStr ("Failed to save image: " +:+ exn_str exc))), fs')
  end.
Proof.
  intros Hdata. unfold agregar_imagen.
  destruct (data req) as [|b rest] eqn:E; [done |].
  rewrite filepath_eq. unfold io_try, mbind, io_mbind, io_bind.
  by destruct (with_open_write e fl "uploads/received_image.jpg" (b :: rest) fs)
    as [[[]|exc] fs'].
Qed.

Lemma agregar_imagen_empty e fl req fs :
  data req = [] →
  agregar_imagen e fl req fs
  = (Ok (json_response 400 "error" (JStr "No image data received")), fs).
Proof. intros Hdata. unfold agregar_imagen. by rewrite Hdata. Qed.

(** The view always returns a response; no exception leaves it. *)
Lemma agregar_imagen_returns e fl req fs :
  ∃ resp fs', agregar_imagen e fl req fs = (Ok resp, fs').
Proof.
  destruct (data req) as [|b rest] eqn:E.
  - rewrite agregar_imagen_empty by done. eauto.
  - rewrite agregar_imagen_nonempty by (rewrite E; done).
    destruct (with_open_write _ _ _ _ _) as [[[]|exc] fs']; eauto.
Qed.

(** A response with status 200 means the bytes of the body are in the
    file of the fixed name, and nothing else changed. *)
Lemma upload_200 e fl req fs resp fs' :
  POST_agregarImagen e fl req fs = (resp, fs') →
  status resp = 200%N →
  fs !! cwd e = Some Dir
  ∧ fs !! upload_dir (cwd e) = Some Dir
  ∧ fs' = <[received_image (cwd e) := File (data req)]> fs.
Proof.
  unfold POST_agregarImagen.
  destruct (data req) as [|b rest] eqn:E.
  - rewrite agregar_imagen_empty by done. by intros [= <- <-].
  - rewrite agregar_imagen_nonempty by (rewrite E; done). rewrite E.
    destruct (with_open_write _ _ _ _ _) as [[[]|exc] fs''] eqn:W.
    + intros [= <- <-] _. by apply with_open_write_ok in W.
    + by intros [= <- <-].
Qed.

End Upload.

(* ================================================================== *)
(** * Paths: [split], [join], [normpath], [safe_join]                  *)
(* ================================================================== *)

Section Paths.

Implicit Types (s t : string) (sep : ascii) (l comps names : list string).

Lemma split_nonempty sep s : Str.split sep s ≠ [].
Proof.
  destruct s as [|c s]; simpl; [done |].
  destruct (decide (c = sep)); [done |]. by destruct (Str.split sep s).
Qed.

Lemma split_append_sep sep s t :
  Str.split sep (s +:+ String sep t) = Str.split sep s ++ Str.split sep t.
Proof.
  induction s as [|c s IH].
  - rewrite append_nil_l. simpl. destruct (decide (sep = sep)); done.
  - rewrite append_cons. simpl. destruct (decide (c = sep)).
    + by rewrite IH.
    + rewrite IH. pose proof (split_nonempty sep s).
      by destruct (Str.split sep s).
Qed.


Lemma split_without_sep sep s :
  Str.contains_char sep s = false → Str.split sep s = [s].
Proof.
  induction s as [|c s IH]; simpl; [done |].
  destruct (decide (c = sep)); [done |]. intros H. by rewrite IH.
Qed.



Lemma step_entry_name cur c : entry_name c → Fs.step cur c = cur ++ [c].
Proof.
  intros (H1 & H2 & H3 & _). unfold Fs.step.
  by rewrite !bool_decide_eq_false_2.
Qed.





End Paths.

(* ================================================================== *)
(** * The image route                                                  *)
(* ================================================================== *)

Section Serve.

Implicit Types (fs : filesystem) (filename path_str : string).




(** What the client gets when the view runs: the page of [NotFound]
    unless the path names a regular file; for one, its bytes, or what a
    failure of opening or reading it leads to. *)
Lemma view_response e fl filename fs :
  flask_response (ver_imagen e fl filename fs) =
  match stat_fault fl with
  | Some _ => not_found_page
  | None =>
      match served_location e filename fs with
      | Some loc =>
          match fs !! loc with
          | Some (File content) =>
              match read_fault fl with
              | Some c => read_failure_response c
              | None => {| status := 200; payload := BFile content |}
              end
          | _ => not_found_page
          end
      | None => not_found_page
      end
  end.
Proof.
  unfold ver_imagen, send_from_directory, served_location, send_file,
    Os.isfile, Os.read_file.
  destruct (safe_join UPLOAD_FOLDER filename) as [path_str|];
    [|by destruct (stat_fault fl)].
  destruct (stat_fault fl); [done |].
  destruct (Fs.namei fs (root_path e) path_str) as [c|p]; [done |].
  destruct (fs !! p) as [[content|]|] eqn:Hp; simpl; rewrite ?Hp; try done.
  destruct (read_fault fl) as [c|]; [by destruct c | done].
Qed.

(** Without a regular file at the path the view raises [NotFound]. *)
Lemma ver_imagen_not_served e fl filename fs :
  served_location e filename fs = None →
  ver_imagen e fl filename fs = Raise NotFound.
Proof.
  unfold ver_imagen, send_from_directory, served_location, Os.isfile.
  destruct (safe_join UPLOAD_FOLDER filename) as [path_str|]; [|done].
  destruct (stat_fault fl); [done |].
  destruct (Fs.namei fs (root_path e) path_str) as [c|p]; [done |].
  by destruct (fs !! p) as [[content|]|].
Qed.

Lemma prefix_contains_char c p s :
  String.prefix p s = true →
  Str.contains_char c p = true → Str.contains_char c s = true.
Proof.
  revert s. induction p as [|x p IH]; intros s; [done |].
  destruct s as [|y s]; [done |]. simpl.
  destruct (ascii_dec x y) as [->|]; [|done].
  intros Hp. destruct (decide (y = c)); [done | by apply IH].
Qed.

(** An entry name passes [safe_join] unchanged. *)
Lemma safe_join_entry_name filename :
  entry_name filename →
  safe_join UPLOAD_FOLDER filename = Some ("uploads" +:+ String "/" filename).
Proof.
  intros (Hne & Hdot & Hdd & Hsep).
  assert (∀ p, Str.contains_char "/" p = true → Str.startswith filename p = false)
    as Hstart.
  { intros p Hp. unfold Str.startswith.
    destruct (String.prefix p filename) eqn:E; [|done].
    by rewrite (prefix_contains_char "/" p filename) in Hsep. }
  assert (Posixpath.normpath filename = filename) as Hnorm.
  { unfold Posixpath.normpath, Posixpath.initial_slashes.
    rewrite bool_decide_eq_false_2 by done.
    rewrite (Hstart "/") by done. rewrite split_without_sep by done.
    cbn [foldl]. unfold Posixpath.normpath_step.
    rewrite (bool_decide_eq_false_2 (filename = "")) by done.
    rewrite (bool_decide_eq_false_2 (filename = ".")) by done.
    rewrite (bool_decide_eq_true_2 (filename ≠ "..")) by done.
    cbn. by rewrite bool_decide_eq_false_2. }
  unfold safe_join.
  change (bool_decide (UPLOAD_FOLDER = "")) with false. cbn [existsb os_alt_seps orb].
  rewrite bool_decide_eq_true_2 by done. rewrite Hnorm.
  unfold Posixpath.isabs, Posixpath.join.
  rewrite (Hstart "/"), (Hstart "../") by done.
  by rewrite (bool_decide_eq_false_2 (filename = "..")).
Qed.

Lemma entry_name_converts filename :
  entry_name filename → string_converter filename = true.
Proof.
  intros (Hne & _ & _ & Hsep). unfold string_converter.
  by rewrite bool_decide_eq_false_2, Hsep.
Qed.

(** The file sent for an entry name: the entry of that name in the upload
    directory under [app.root_path], when it is a regular file. *)
Lemma served_location_entry_name e filename fs :
  entry_name filename →
  served_location e filename fs =
  match fs !! root_path e with
  | Some Dir =>
      match fs !! upload_dir (root_path e) with
      | Some Dir =>
          match fs !! (upload_dir (root_path e) ++ [filename]) with
          | Some (File _) => Some (upload_dir (root_path e) ++ [filename])
          | _ => None
          end
      | _ => None
      end
  | _ => None
  end.
Proof.
  intros Hname. unfold served_location.
  rewrite safe_join_entry_name by done. unfold Fs.namei.
  change (bool_decide ("uploads" +:+ String "/" filename = "")) with false.
  change (Posixpath.isabs ("uploads" +:+ String "/" filename)) with false.
  rewrite split_append_sep.
  destruct Hname as (? & ? & ? & Hsep).
  rewrite (split_without_sep _ filename) by done.
  change (Str.split "/" "uploads") with ["uploads"]. cbn [app Fs.walk].
  destruct (fs !! root_path e) as [[|]|]; try done.
  change (Fs.step (root_path e) "uploads") with (upload_dir (root_path e)).
  destruct (fs !! upload_dir (root_path e)) as [[|]|]; try done.
  by rewrite step_entry_name.
Qed.

(** The names [.] and [..] never lead to a regular file. *)
Lemma served_location_dot e fs : served_location e "." fs = None.
Proof.
  unfold served_location.
  change (safe_join UPLOAD_FOLDER ".") with (Some "uploads/.").
  unfold Fs.namei.
  change (bool_decide ("uploads/." = "")) with false.
  change (Posixpath.isabs "uploads/.") with false.
  change (Str.split "/" "uploads/.") with ["uploads"; "."]. cbn [Fs.walk].
  destruct (fs !! root_path e) as [[|]|]; try done.
  change (Fs.step (root_path e) "uploads") with (upload_dir (root_path e)).
  destruct (fs !! upload_dir (root_path e)) as [[|]|] eqn:Hup; try done.
  change (Fs.step (upload_dir (root_path e)) ".") with (upload_dir (root_path e)).
  by rewrite Hup.
Qed.

Lemma served_location_dotdot e fs : served_location e ".." fs = None.
Proof. reflexivity. Qed.

(** A segment the rule accepts and for which a file is found is an entry
    name, and the file is the entry of that name in the upload directory. *)
Lemma served_segment e segment fs loc :
  string_converter segment = true →
  served_location e segment fs = Some loc →
  entry_name segment ∧ loc = upload_dir (root_path e) ++ [segment].
Proof.
  unfold string_converter. intros [Hne Hsep]%andb_true_iff Hloc.
  apply negb_true_iff, bool_decide_eq_false in Hne.
  apply negb_true_iff in Hsep.
  assert (entry_name segment) as Hname.
  { split; [done |]. split; [|split; [|done]].
    - intros ->. by rewrite served_location_dot in Hloc.
    - intros ->. by rewrite served_location_dotdot in Hloc. }
  split; [done |]. rewrite served_location_entry_name in Hloc by done.
  destruct (fs !! root_path e) as [[|]|]; try done.
  destruct (fs !! upload_dir (root_path e)) as [[|]|]; try done.
  destruct (fs !! (upload_dir (root_path e) ++ [segment])) as [[|]|]; try done.
  by injection Hloc as <-.
Qed.

(** The route: no match, no file, a file, or a file that cannot be read. *)
Lemma GET_verImagen_cases e fl segment fs :
  GET_verImagen e fl segment fs = not_found_page
  ∨ (∃ content,
       entry_name segment
       ∧ fs !! (upload_dir (root_path e) ++ [segment]) = Some (File content)
       ∧ stat_fault fl = None
       ∧ ((read_fault fl = None
           ∧ GET_verImagen e fl segment fs
             = {| status := 200; payload := BFile content |})
          ∨ (∃ c, read_fault fl = Some c
                  ∧ GET_verImagen e fl segment fs = read_failure_response c))).
Proof.
  unfold GET_verImagen.
  destruct (string_converter segment) eqn:Hconv; [|by left].
  rewrite view_response.
  destruct (stat_fault fl); [by left |].
  destruct (served_location e segment fs) as [loc|] eqn:Hloc; [|by left].
  destruct (served_segment e segment fs loc Hconv Hloc) as [Hname ->].
  destruct (fs !! (upload_dir (root_path e) ++ [segment])) as [[content|]|] eqn:Hf;
    [|by left ..].
  right. exists content. split; [done |]. split; [done |]. split; [done |].
  destruct (read_fault fl) as [c|]; [right; eauto | by left].
Qed.

(** The route on an entry name. *)
Lemma GET_verImagen_entry_name e fl filename fs :
  entry_name filename →
  GET_verImagen e fl filename fs =
  match stat_fault fl with
  | Some _ => not_found_page
  | None =>
      match fs !! root_path e with
      | Some Dir =>
          match fs !! upload_dir (root_path e) with
          | Some Dir =>
              match fs !! (upload_dir (root_path e) ++ [filename]) with
              | Some (File content) =>
                  match read_fault fl with
                  | Some c => read_failure_response c
                  | None => {| status := 200; payload := BFile content |}
                  end
              | _ => not_found_page
              end
          | _ => not_found_page
          end
      | _ => not_found_page
      end
  end.
Proof.
  intros Hname. unfold GET_verImagen.
  rewrite entry_name_converts, view_response, served_location_entry_name by done.
  destruct (stat_fault fl); [done |].
  destruct (fs !! root_path e) as [[|]|]; try done.
  destruct (fs !! upload_dir (root_path e)) as [[|]|]; try done.
  by destruct (fs !! (upload_dir (root_path e) ++ [filename]))
    as [[content|]|] eqn:Hf; rewrite ?Hf.
Qed.

Lemma received_name_is_entry_name : entry_name "received_image.jpg".
Proof. by repeat split. Qed.

(** Fetching the file of the fixed name. *)
Lemma fetch_received e fl fs content :
  stat_fault fl = None →
  read_fault fl = None →
  fs !! root_path e = Some Dir →
  fs !! upload_dir (root_path e) = Some Dir →
  fs !! received_image (root_path e) = Some (File content) →
  GET_verImagen e fl "received_image.jpg" fs
  = {| status := 200; payload := BFile content |}.
Proof.
  intros Hstat Hread Hroot Hup Hfile.
  rewrite GET_verImagen_entry_name by apply received_name_is_entry_name.
  rewrite Hstat, Hread, Hroot, Hup, <- received_image_child. by rewrite Hfile.
Qed.

(** A name with no entry in the upload directory leaves the view through
    [NotFound], and the client gets the page of that error. *)
Lemma missing_entry_not_found e fl filename fs :
  entry_name filename →
  fs !! (upload_dir (root_path e) ++ [filename]) = None →
  ver_imagen e fl filename fs = Raise NotFound
  ∧ GET_verImagen e fl filename fs = not_found_page.
Proof.
  intros Hname Hnone. split.
  - apply ver_imagen_not_served. rewrite served_location_entry_name by done.
    destruct (fs !! root_path e) as [[|]|]; try done.
    destruct (fs !! upload_dir (root_path e)) as [[|]|]; try done.
    by rewrite Hnone.
  - rewrite GET_verImagen_entry_name by done.
    destruct (stat_fault fl); [done |].
    destruct (fs !! root_path e) as [[|]|]; try done.
    destruct (fs !! upload_dir (root_path e)) as [[|]|]; try done.
    by rewrite Hnone.
Qed.






End Serve.

(* ================================================================== *)
(** * The listing route                                                *)
(* ================================================================== *)

Section Listing.

Implicit Types (fs : filesystem) (p q : list string) (n : string).

Lemma child_name_Some p q n : Fs.child_name p q = Some n ↔ q = p ++ [n].
Proof.
  revert q. induction p as [|x p IH]; intros q; simpl.
  - destruct q as [|y [|z q]]; split; intros H; by simplify_eq.
  - destruct q as [|y q]; [split; intros H; by simplify_eq |].
    case_bool_decide as Hxy.
    + subst y. rewrite IH. split; intros H; by simplify_eq.
    + split; intros H; by simplify_eq.
Qed.

(** The listing names every node one step below the directory, whatever
    its kind, and nothing else. *)
Lemma elem_of_entries fs p n :
  n ∈ Fs.entries fs p ↔ is_Some (fs !! (p ++ [n])).
Proof.
  unfold Fs.entries. rewrite list_elem_of_omap. split.
  - intros (q & Hq & Hn). apply child_name_Some in Hn as ->.
    by apply elem_of_elements, elem_of_dom in Hq.
  - intros Hn. exists (p ++ [n]). split.
    + by apply elem_of_elements, elem_of_dom.
    + by apply child_name_Some.
Qed.

Lemma NoDup_omap_inj {A B} (f : A → option B) (l : list A) :
  (∀ x y z, f x = Some z → f y = Some z → x = y) →
  NoDup l → NoDup (omap f l).
Proof.
  intros Hinj. induction 1 as [|x l Hx _ IH]; csimpl; [constructor |].
  destruct (f x) as [z|] eqn:Hfx; [|done].
  constructor; [|done].
  intros (y & Hy & Hfy)%list_elem_of_omap.
  by rewrite (Hinj x y z) in Hx.
Qed.

(** No name stands twice in a listing. *)
Lemma NoDup_entries fs p : NoDup (Fs.entries fs p).
Proof.
  apply NoDup_omap_inj; [|apply NoDup_elements].
  intros x y z Hx%child_name_Some Hy%child_name_Some. congruence.
Qed.

(** Writing over a node that exists leaves every listing as it was. *)
Lemma entries_insert_existing fs p q v :
  is_Some (fs !! q) → Fs.entries (<[q := v]> fs) p = Fs.entries fs p.
Proof.
  intros Hq. unfold Fs.entries. by rewrite dom_insert_lookup_L.
Qed.

(** What a listing shows does not depend on the content of a node. *)
Lemma entries_insert_content fs p q v w :
  Fs.entries (<[q := v]> fs) p = Fs.entries (<[q := w]> fs) p.
Proof. unfold Fs.entries. by rewrite !dom_insert_L. Qed.

Lemma singleton_list {A} (l : list A) (a : A) :
  NoDup l → (∀ x, x ∈ l ↔ x = a) → l = [a].
Proof.
  intros Hnd Hin. destruct l as [|x l].
  - by specialize (proj2 (Hin a) eq_refl) as ?%elem_of_nil.
  - assert (x = a) as -> by (apply Hin; left).
    destruct l as [|y l]; [done |].
    assert (y = a) as -> by (apply Hin; right; left).
    apply NoDup_cons in Hnd as [Hnot _]. exfalso. apply Hnot. left.
Qed.

Lemma listdir_uploads e fl fs :
  Os.listdir e fl UPLOAD_FOLDER fs =
  match listdir_fault fl with
  | Some c => (Raise (OSError c (Some "uploads")), fs)
  | None =>
      match fs !! cwd e with
      | Some Dir =>
          match fs !! upload_dir (cwd e) with
          | Some Dir => (Ok (Fs.entries fs (upload_dir (cwd e))), fs)
          | Some (File _) => (Raise (OSError ENOTDIR (Some "uploads")), fs)
          | None => (Raise (OSError ENOENT (Some "uploads")), fs)
          end
      | Some (File _) => (Raise (OSError ENOTDIR (Some "uploads")), fs)
      | None => (Raise (OSError ENOENT (Some "uploads")), fs)
      end
  end.
Proof.
  unfold Os.listdir. rewrite namei_uploads.
  destruct (listdir_fault fl); [done |].
  by destruct (fs !! cwd e) as [[|]|].
Qed.

(** The view: the two ways the [try] ends. *)
Lemma ver_imagenes_cases e fl fs :
  ver_imagenes e fl fs =
  match Os.listdir e fl UPLOAD_FOLDER fs with
  | (Ok names, fs') =>
      (Ok (json_response 200 "imagenes" (JList (map JStr names))), fs')
  | (Raise exc, fs') =>
      (Ok (json_response 500 "error"
             (JStr ("Error al obtener las im" +:+ a_acute +:+ "genes: "
                    +:+ exn_str exc))), fs')
  end.
Proof.
  unfold ver_imagenes, io_try, mbind, io_mbind, io_bind.
  destruct (Os.listdir e fl UPLOAD_FOLDER fs) as [[names|exc] fs']; [|done].
  by rewrite map_id.
Qed.

(** The route in terms of the outcome of [os.listdir]. *)
Lemma GET_verImagenes_eq e fl fs :
  GET_verImagenes e fl fs =
  match fst (Os.listdir e fl UPLOAD_FOLDER fs) with
  | Ok names => json_response 200 "imagenes" (JList (map JStr names))
  | Raise exc =>
      json_response 500 "error"
        (JStr ("Error al obtener las im" +:+ a_acute +:+ "genes: " +:+ exn_str exc))
  end.
Proof.
  unfold GET_verImagenes. rewrite ver_imagenes_cases.
  by destruct (Os.listdir e fl UPLOAD_FOLDER fs) as [[names|exc] fs'].
Qed.

(** Listing reads the filesystem and leaves it alone. *)
Lemma listdir_pure e fl path fs : snd (Os.listdir e fl path fs) = fs.
Proof.
  unfold Os.listdir. destruct (listdir_fault fl); [done |].
  destruct (Fs.namei fs (cwd e) path); [done |].
  by destruct (fs !! _) as [[|]|].
Qed.

End Listing.

(* ================================================================== *)
(** * The routes: what a client observes                               *)
(* ================================================================== *)

Lemma contains_tail needle pre : Str.contains needle (pre +:+ needle) = true.
Proof.
  rewrite <- (append_nil_r needle) at 2. apply contains_append.
Qed.

(** The upload goes through in a world free of faults whose upload
    directory exists, unless a directory bears the name of the file. *)
Lemma upload_succeeds e req fs :
  data req ≠ [] →
  fs !! cwd e = Some Dir →
  fs !! upload_dir (cwd e) = Some Dir →
  fs !! received_image (cwd e) ≠ Some Dir →
  POST_agregarImagen e no_faults req fs
  = (json_response 200 "message"
       (JStr "Image successfully saved at uploads/received_image.jpg"),
     <[received_image (cwd e) := File (data req)]> fs).
Proof.
  intros Hdata Hcwd Hup Hfile. unfold POST_agregarImagen.
  rewrite agregar_imagen_nonempty by done.
  by rewrite with_open_write_runs.
Qed.

(** Without an upload directory the write fails as [open] does. *)
Lemma with_open_write_no_dir e fs content :
  fs !! cwd e = Some Dir →
  fs !! upload_dir (cwd e) = None →
  with_open_write e no_faults "uploads/received_image.jpg" content fs
  = (Raise (OSError ENOENT (Some "uploads/received_image.jpg")), fs).
Proof.
  intros Hcwd Hup.
  unfold with_open_write, mbind, io_mbind, io_bind, Os.open_wb. simpl.
  by rewrite namei_received, Hcwd, Hup.
Qed.

(** C1, against the claim as stated: a non-empty body does not always come
    back.  Without an upload directory (the code never makes one) the
    upload is answered 500 and the fetch with the page of [NotFound]; in a
    service started outside its own directory the upload is answered 200
    and the fetch still with the page of [NotFound]; and a non-empty body
    sent as a form leaves [request.data] empty, so the upload is answered
    400 and nothing is stored. *)
Lemma upload_then_fetch_can_fail :
  (data (demo_request [x41]) ≠ []
   ∧ status (fst (POST_agregarImagen demo_env no_faults (demo_request [x41])
                    demo_fs_bare)) = 500%N
   ∧ GET_verImagen demo_env no_faults "received_image.jpg"
       (snd (POST_agregarImagen demo_env no_faults (demo_request [x41])
               demo_fs_bare))
     = not_found_page)
  ∧ (status (fst (POST_agregarImagen away_env no_faults (demo_request [x41])
                    away_fs)) = 200%N
     ∧ GET_verImagen away_env no_faults "received_image.jpg"
         (snd (POST_agregarImagen away_env no_faults (demo_request [x41])
                 away_fs))
       = not_found_page)
  ∧ ([x61; x3d; x31] ≠ @nil byte
     ∧ POST_agregarImagen demo_env no_faults
         (request_of "application/x-www-form-urlencoded" [x61; x3d; x31]) demo_fs
       = (json_response 400 "error" (JStr "No image data received"), demo_fs))
  ∧ not_found_page ≠ {| status := 200; payload := BFile [x41] |}.
Proof.
  split; [|split; [|split]].
  - split; [discriminate |]. split; vm_compute; reflexivity.
  - split; vm_compute; reflexivity.
  - split; [discriminate | reflexivity].
  - discriminate.
Qed.

(** C1, amended: for a request whose [request.data] is not empty, in a
    service whose working directory is the directory of the application:
    whenever the upload is answered 200, fetching [received_image.jpg]
    afterwards returns exactly the bytes uploaded, provided nothing fails
    when the file is looked up and read; and the upload is answered 200
    when the upload directory exists, no directory bears the name of the
    file and the operating system imposes no failure. *)
Theorem upload_then_fetch_returns_bytes e req fs :
  data req ≠ [] →
  root_path e = cwd e →
  (∀ fl fl' resp fs',
      POST_agregarImagen e fl req fs = (resp, fs') →
      status resp = 200%N →
      stat_fault fl' = None →
      read_fault fl' = None →
      GET_verImagen e fl' "received_image.jpg" fs'
      = {| status := 200; payload := BFile (data req) |})
  ∧ (fs !! cwd e = Some Dir →
     fs !! upload_dir (cwd e) = Some Dir →
     fs !! received_image (cwd e) ≠ Some Dir →
     ∃ resp fs',
       POST_agregarImagen e no_faults req fs = (resp, fs')
       ∧ status resp = 200%N
       ∧ GET_verImagen e no_faults "received_image.jpg" fs'
         = {| status := 200; payload := BFile (data req) |}).
Proof.
  intros Hdata Hroot.
  assert (∀ fl fl' resp fs',
            POST_agregarImagen e fl req fs = (resp, fs') →
            status resp = 200%N →
            stat_fault fl' = None →
            read_fault fl' = None →
            GET_verImagen e fl' "received_image.jpg" fs'
            = {| status := 200; payload := BFile (data req) |}) as Hfetch.
  { intros fl fl' resp fs' Hpost Hok Hstat Hread.
    apply upload_200 in Hpost as (Hcwd & Hup & ->); [|done].
    apply fetch_received; [done | done | rewrite Hroot ..].
    - by rewrite lookup_insert_ne by apply received_image_ne_base.
    - by rewrite lookup_insert_ne by apply received_image_ne_upload_dir.
    - apply lookup_insert_eq. }
  split; [exact Hfetch |].
  intros Hcwd Hup Hfile.
  pose proof (upload_succeeds e req fs Hdata Hcwd Hup Hfile) as Hpost.
  eexists _, _. split; [exact Hpost |]. split; [done |].
  by eapply Hfetch.
Qed.

Lemma upload_then_fetch_demo :
  ∃ resp fs',
    POST_agregarImagen demo_env no_faults (demo_request [xff; xd8; xff]) demo_fs
    = (resp, fs')
    ∧ status resp = 200%N
    ∧ GET_verImagen demo_env no_faults "received_image.jpg" fs'
      = {| status := 200; payload := BFile [xff; xd8; xff] |}.
Proof.
  apply (upload_then_fetch_returns_bytes demo_env
           (demo_request [xff; xd8; xff]) demo_fs).
  - discriminate.
  - reflexivity.
  - reflexivity.
  - reflexivity.
  - discriminate.
Defined.

(** C2, against the claim as stated: in a service started outside its own
    directory two uploads are answered 200 and the fetch does not return
    the bytes of the second but the page of [NotFound]; and in an upload
    directory that holds other entries the listing after two uploads shows
    three names, not one. *)
Lemma second_upload_can_miss :
  (status (fst (POST_agregarImagen away_env no_faults (demo_request [x41])
                  away_fs)) = 200%N
   ∧ status (fst (POST_agregarImagen away_env no_faults (demo_request [x42; x42])
                    (snd (POST_agregarImagen away_env no_faults
                            (demo_request [x41]) away_fs)))) = 200%N
   ∧ GET_verImagen away_env no_faults "received_image.jpg"
       (snd (POST_agregarImagen away_env no_faults (demo_request [x42; x42])
               (snd (POST_agregarImagen away_env no_faults
                       (demo_request [x41]) away_fs))))
     = not_found_page)
  ∧ (∃ names,
       GET_verImagenes demo_env no_faults
         (snd (POST_agregarImagen demo_env no_faults (demo_request [x42; x42])
                 (snd (POST_agregarImagen demo_env no_faults
                         (demo_request [x41]) demo_fs_mixed))))
       = json_response 200 "imagenes" (JList (map JStr names))
       ∧ length names = 3)
  ∧ not_found_page ≠ {| status := 200; payload := BFile [x42; x42] |}.
Proof.
  split; [|split].
  - repeat split; vm_compute; reflexivity.
  - exists ["notes.txt"; "received_image.jpg"; "old"].
    split; [vm_compute; reflexivity | reflexivity].
  - discriminate.
Qed.

(** C2, amended: every upload answered 200 writes the one file
    [uploads/received_image.jpg] and changes nothing else.  After two such
    uploads, of A and then of B, nothing of A is left and the listing is
    what it was after the first upload; when the upload directory held
    nothing else at the start the listing shows the single entry
    [received_image.jpg]; and in a service whose working directory is the
    directory of the application, fetching the image returns the bytes of
    B, provided nothing fails when the file is looked up and read. *)
Theorem second_upload_overwrites e flA flB reqA reqB fs respA fsA respB fsB :
  POST_agregarImagen e flA reqA fs = (respA, fsA) →
  status respA = 200%N →
  POST_agregarImagen e flB reqB fsA = (respB, fsB) →
  status respB = 200%N →
  fsA = <[received_image (cwd e) := File (data reqA)]> fs
  ∧ fsB = <[received_image (cwd e) := File (data reqB)]> fs
  ∧ (root_path e = cwd e →
     ∀ fl, stat_fault fl = None → read_fault fl = None →
           GET_verImagen e fl "received_image.jpg" fsB
           = {| status := 200; payload := BFile (data reqB) |})
  ∧ (∀ fl, GET_verImagenes e fl fsB = GET_verImagenes e fl fsA)
  ∧ ((∀ n, n ≠ "received_image.jpg" → fs !! (upload_dir (cwd e) ++ [n]) = None) →
     GET_verImagenes e no_faults fsB
     = json_response 200 "imagenes" (JList [JStr "received_image.jpg"])).
Proof.
  intros HA HokA HB HokB.
  apply upload_200 in HA as (Hcwd & Hup & ->); [|done].
  apply upload_200 in HB as (Hcwd' & Hup' & ->); [|done].
  rewrite insert_insert_eq.
  set (target := received_image (cwd e)) in *.
  split; [done |]. split; [done |]. split; [|split].
  - intros Hroot fl Hstat Hread.
    apply fetch_received; [done | done | rewrite Hroot ..].
    + by rewrite lookup_insert_ne by apply received_image_ne_base.
    + by rewrite lookup_insert_ne by apply received_image_ne_upload_dir.
    + apply lookup_insert_eq.
  - intros fl. rewrite !GET_verImagenes_eq, !listdir_uploads.
    destruct (listdir_fault fl); [done |].
    rewrite !(lookup_insert_ne _ target (cwd e))
      by apply received_image_ne_base.
    rewrite !(lookup_insert_ne _ target (upload_dir (cwd e)))
      by apply received_image_ne_upload_dir.
    rewrite Hcwd, Hup. simpl.
    by rewrite (entries_insert_content fs _ target _ (File (data reqA))).
  - intros Hempty. rewrite GET_verImagenes_eq, listdir_uploads. simpl.
    rewrite !(lookup_insert_ne _ target) by
      (first [apply received_image_ne_base | apply received_image_ne_upload_dir]).
    rewrite Hcwd, Hup. simpl. unfold json_response. do 4 f_equal.
    rewrite (singleton_list (Fs.entries (<[target := File (data reqB)]> fs)
                               (upload_dir (cwd e))) "received_image.jpg");
      [done | apply NoDup_entries |].
    intros n. rewrite elem_of_entries. subst target.
    rewrite received_image_child. split.
    + intros [v Hv]. destruct (decide (n = "received_image.jpg")); [done |].
      rewrite lookup_insert_ne in Hv by (intros ?; simplify_list_eq; done).
      by rewrite Hempty in Hv.
    + intros ->. rewrite lookup_insert_eq. eauto.
Qed.

Lemma demo_upload_dir_empty n :
  demo_fs !! (upload_dir (cwd demo_env) ++ [n]) = None.
Proof.
  unfold demo_fs. rewrite !lookup_insert_ne by done.
  by rewrite lookup_singleton_ne.
Qed.

Lemma second_upload_demo :
  GET_verImagen demo_env no_faults "received_image.jpg"
    (<[received_image (cwd demo_env) := File [x42; x42]]> demo_fs)
  = {| status := 200; payload := BFile [x42; x42] |}
  ∧ GET_verImagenes demo_env no_faults
      (<[received_image (cwd demo_env) := File [x42; x42]]> demo_fs)
    = json_response 200 "imagenes" (JList [JStr "received_image.jpg"]).
Proof.
  pose proof (second_upload_overwrites demo_env no_faults no_faults
                (demo_request [x41]) (demo_request [x42; x42]) demo_fs
                (json_response 200 "message"
                   (JStr "Image successfully saved at uploads/received_image.jpg"))
                (<[received_image (cwd demo_env) := File [x41]]> demo_fs)
                (json_response 200 "message"
                   (JStr "Image successfully saved at uploads/received_image.jpg"))
                (<[received_image (cwd demo_env) := File [x42; x42]]>
                   (<[received_image (cwd demo_env) := File [x41]]> demo_fs))) as H.
  destruct H as (_ & _ & Hfetch & _ & Hone).
  - apply upload_succeeds; vm_compute; done.
  - reflexivity.
  - apply upload_succeeds; vm_compute; done.
  - reflexivity.
  - rewrite insert_insert_eq in Hfetch, Hone.
    split; [by apply Hfetch |]. apply Hone. intros n _. apply demo_upload_dir_empty.
Defined.

(** C4: an upload with an empty body is answered 400 with the error
    [No image data received], and the filesystem is left as it was. *)
Theorem empty_upload_rejected e fl req fs :
  data req = [] →
  POST_agregarImagen e fl req fs
  = (json_response 400 "error" (JStr "No image data received"), fs).
Proof.
  intros Hdata. unfold POST_agregarImagen.
  by rewrite agregar_imagen_empty.
Qed.

Lemma empty_upload_demo :
  POST_agregarImagen demo_env no_faults (demo_request []) demo_fs
  = (json_response 400 "error" (JStr "No image data received"), demo_fs).
Proof. apply (empty_upload_rejected demo_env no_faults (demo_request []) demo_fs). reflexivity. Defined.

(** C6: when the write of a non-empty body raises [exc], the answer is 500
    with a JSON error whose text is [Failed to save image: ] followed by
    [str(exc)], so it contains the text of the exception. *)
Theorem failed_write_reported e fl req fs exc fs' :
  data req ≠ [] →
  with_open_write e fl (Posixpath.join UPLOAD_FOLDER "received_image.jpg")
    (data req) fs = (Raise exc, fs') →
  POST_agregarImagen e fl req fs
  = (json_response 500 "error" (JStr ("Failed to save image: " +:+ exn_str exc)), fs')
  ∧ Str.contains (exn_str exc) ("Failed to save image: " +:+ exn_str exc) = true.
Proof.
  intros Hdata Hwrite. rewrite filepath_eq in Hwrite. split.
  - unfold POST_agregarImagen. rewrite agregar_imagen_nonempty by done.
    by rewrite Hwrite.
  - apply contains_tail.
Qed.

Lemma failed_write_demo :
  POST_agregarImagen demo_env no_faults (demo_request [x41]) demo_fs_bare
  = (json_response 500 "error"
       (JStr "Failed to save image: [Errno 2] No such file or directory: 'uploads/received_image.jpg'"),
     demo_fs_bare)
  ∧ Str.contains "[Errno 2] No such file or directory: 'uploads/received_image.jpg'"
      "Failed to save image: [Errno 2] No such file or directory: 'uploads/received_image.jpg'"
    = true.
Proof.
  apply (failed_write_reported demo_env no_faults (demo_request [x41]) demo_fs_bare
           (OSError ENOENT (Some "uploads/received_image.jpg")) demo_fs_bare).
  - discriminate.
  - rewrite filepath_eq. apply with_open_write_no_dir; vm_compute; done.
Defined.

(** C8: when the write of a non-empty body succeeds, the answer is 200
    with the JSON message [Image successfully saved at ] followed by the
    path written, [uploads/received_image.jpg]. *)
Theorem successful_write_confirmed e fl req fs fs' :
  data req ≠ [] →
  with_open_write e fl (Posixpath.join UPLOAD_FOLDER "received_image.jpg")
    (data req) fs = (Ok tt, fs') →
  POST_agregarImagen e fl req fs
  = (json_response 200 "message"
       (JStr ("Image successfully saved at "
              +:+ Posixpath.join UPLOAD_FOLDER "received_image.jpg")), fs')
  ∧ Str.contains (Posixpath.join UPLOAD_FOLDER "received_image.jpg")
      ("Image successfully saved at "
       +:+ Posixpath.join UPLOAD_FOLDER "received_image.jpg") = true
  ∧ fs' !! received_image (cwd e) = Some (File (data req)).
Proof.
  intros Hdata Hwrite. rewrite filepath_eq in *. split; [|split].
  - unfold POST_agregarImagen. rewrite agregar_imagen_nonempty by done.
    by rewrite Hwrite.
  - apply contains_tail.
  - apply with_open_write_ok in Hwrite as (_ & _ & ->). apply lookup_insert_eq.
Qed.

Lemma successful_write_demo :
  fst (POST_agregarImagen demo_env no_faults (demo_request [x41]) demo_fs)
  = json_response 200 "message"
      (JStr "Image successfully saved at uploads/received_image.jpg").
Proof.
  pose proof (successful_write_confirmed demo_env no_faults (demo_request [x41]) demo_fs
                (<[received_image (cwd demo_env) := File [x41]]> demo_fs)) as H.
  destruct H as (Hpost & _ & _).
  - discriminate.
  - rewrite filepath_eq. apply with_open_write_runs; vm_compute; done.
  - by rewrite Hpost.
Defined.

(** C7: when [os.listdir] returns, the listing route answers 200 with the
    names it returned under [imagenes], and these are the names of all
    the entries of the upload directory, of whatever kind; when
    [os.listdir] raises, the route answers 500 with a JSON error.  In the
    sample world with a text file and a subdirectory both are listed, and
    without an upload directory the answer is the error. *)
Theorem listing_returns_every_entry :
  (∀ e fl fs names fs',
      Os.listdir e fl UPLOAD_FOLDER fs = (Ok names, fs') →
      GET_verImagenes e fl fs
      = json_response 200 "imagenes" (JList (map JStr names))
      ∧ (∀ n, n ∈ names ↔ is_Some (fs !! (upload_dir (cwd e) ++ [n])))
      ∧ NoDup names)
  ∧ (∀ e fl fs exc fs',
      Os.listdir e fl UPLOAD_FOLDER fs = (Raise exc, fs') →
      GET_verImagenes e fl fs
      = json_response 500 "error"
          (JStr ("Error al obtener las im" +:+ a_acute +:+ "genes: "
                 +:+ exn_str exc)))
  ∧ GET_verImagenes demo_env no_faults demo_fs_mixed
    = json_response 200 "imagenes" (JList [JStr "notes.txt"; JStr "old"])
  ∧ GET_verImagenes demo_env no_faults demo_fs_bare
    = json_response 500 "error"
        (JStr ("Error al obtener las im" +:+ a_acute
               +:+ "genes: [Errno 2] No such file or directory: 'uploads'")).
Proof.
  split; [|split; [|split]].
  - intros e fl fs names fs' Hlist. rewrite GET_verImagenes_eq, Hlist.
    split; [done |].
    rewrite listdir_uploads in Hlist.
    destruct (listdir_fault fl); [done |].
    destruct (fs !! cwd e) as [[|]|]; try done.
    destruct (fs !! upload_dir (cwd e)) as [[|]|]; try done.
    injection Hlist as <- <-. split.
    + intros n. apply elem_of_entries.
    + apply NoDup_entries.
  - intros e fl fs exc fs' Hlist. by rewrite GET_verImagenes_eq, Hlist.
  - vm_compute. reflexivity.
  - vm_compute. reflexivity.
Qed.

(** C3, as the code has it: for a name with no entry in the upload
    directory the image route answers 404, but never with the JSON body
    [Imagen no encontrada].  [send_from_directory] reports a missing file
    by raising Werkzeug's [NotFound], which [except FileNotFoundError] does
    not catch, so the exception leaves the view and Flask answers with the
    page of the error.  Whatever the name, the route answers with that
    page or with a file, unless opening or reading the file it found
    fails; only then, and only for a file that is gone by the time it is
    opened, does the [except] clause give its JSON. *)
Theorem missing_image_gets_error_page :
  (∀ e fl filename fs,
      entry_name filename →
      fs !! (upload_dir (root_path e) ++ [filename]) = None →
      ver_imagen e fl filename fs = Raise NotFound
      ∧ GET_verImagen e fl filename fs = not_found_page)
  ∧ (∀ e fl filename fs,
      GET_verImagen e fl filename fs = not_found_page
      ∨ (∃ content,
           GET_verImagen e fl filename fs
           = {| status := 200; payload := BFile content |})
      ∨ (∃ c, read_fault fl = Some c
              ∧ GET_verImagen e fl filename fs = read_failure_response c))
  ∧ GET_verImagen demo_env no_faults "doesnotexist.jpg" demo_fs = not_found_page
  ∧ status not_found_page = 404%N
  ∧ not_found_page ≠ json_response 404 "error" (JStr "Imagen no encontrada").
Proof.
  split; [|split; [|split; [|split]]].
  - apply missing_entry_not_found.
  - intros e fl filename fs.
    destruct (GET_verImagen_cases e fl filename fs)
      as [H|(content & _ & _ & _ & [[_ H]|(c & Hc & H)])];
      [by left | right; left; eauto | right; right; eauto].
  - vm_compute. reflexivity.
  - reflexivity.
  - discriminate.
Qed.



(* ================================================================== *)
(** * [allowed_file] and the upload route                              *)
(* ================================================================== *)

Lemma allowed_extension ext :
  ext ∈ ALLOWED_EXTENSIONS ↔ ext = "jpg" ∨ ext = "jpeg" ∨ ext = "png".
Proof.
  unfold ALLOWED_EXTENSIONS. rewrite !elem_of_union, !elem_of_singleton.
  tauto.
Qed.

(** C10: [allowed_file] never raises; it answers true exactly when the
    name has a dot and the part after the last dot, lowercased, is [jpg],
    [jpeg] or [png]: true for [photo.JPG], [a.b.Jpeg] and [x.png], false
    for [anim.gif], [photo.jpgx], [photo.jpg.] and [.jpg.txt]; it answers
    false for a name without a dot, [jpg] among them.  The upload view
    does not consult it: what the view does is fixed by the bytes of the
    body, whatever names the request carries, and a request whose every
    name [allowed_file] rejects is stored like any other, as is the one
    that names [malware.exe]. *)
Theorem allowed_file_extension_rule :
  (∀ filename, ∃ b,
      allowed_file filename = Ok b ∧ (b = true ↔ allowed_by_extension filename))
  ∧ (∀ filename,
      Str.contains_char "." filename = false → allowed_file filename = Ok false)
  ∧ (allowed_file "photo.JPG" = Ok true
     ∧ allowed_file "a.b.Jpeg" = Ok true
     ∧ allowed_file "x.png" = Ok true
     ∧ allowed_file "anim.gif" = Ok false
     ∧ allowed_file "photo.jpgx" = Ok false
     ∧ allowed_file "photo.jpg." = Ok false
     ∧ allowed_file ".jpg.txt" = Ok false
     ∧ allowed_file "jpg" = Ok false)
  ∧ (∀ e fl fs r1 r2,
      data r1 = data r2 → agregar_imagen e fl r1 fs = agregar_imagen e fl r2 fs)
  ∧ (∀ e req fs,
      (∀ key name, (key, name) ∈ args req ++ headers req →
                   allowed_file name = Ok false) →
      data req ≠ [] →
      fs !! cwd e = Some Dir →
      fs !! upload_dir (cwd e) = Some Dir →
      fs !! received_image (cwd e) ≠ Some Dir →
      POST_agregarImagen e no_faults req fs
      = (json_response 200 "message"
           (JStr "Image successfully saved at uploads/received_image.jpg"),
         <[received_image (cwd e) := File (data req)]> fs))
  ∧ (allowed_file "malware.exe" = Ok false
     ∧ POST_agregarImagen demo_env no_faults
         {| args := [("filename", "malware.exe")];
            headers := [("X-Filename", "malware.exe")];
            data := [x4d; x5a] |}
         demo_fs
       = (json_response 200 "message"
            (JStr "Image successfully saved at uploads/received_image.jpg"),
          <[received_image (cwd demo_env) := File [x4d; x5a]]> demo_fs)).
Proof.
  split; [|split; [|split; [|split; [|split]]]].
  - intros filename. unfold allowed_by_extension.
    destruct (Str.rcut "." filename) as [[before ext]|] eqn:Hcut.
    + exists (bool_decide (Str.lower ext ∈ ALLOWED_EXTENSIONS)).
      split; [by eapply allowed_file_cut |].
      rewrite bool_decide_eq_true, allowed_extension. split.
      * intros Hin. exists before, ext.
        apply rcut_Some in Hcut as [-> Hext]. done.
      * intros (before' & ext' & Heq & Hext & Hin).
        assert (Str.rcut "." filename = Some (before', ext')) as Hcut'
          by (apply rcut_Some; done).
        rewrite Hcut in Hcut'. by injection Hcut' as -> ->.
    + exists false. apply rcut_None in Hcut.
      split; [by apply allowed_file_no_dot |].
      split; [done |].
      intros (before & ext & -> & _ & _).
      by rewrite contains_char_after_sep in Hcut.
  - apply allowed_file_no_dot.
  - repeat split; reflexivity.
  - intros e fl fs r1 r2 Hdata. unfold agregar_imagen. by rewrite Hdata.
  - intros e req fs _. apply upload_succeeds.
  - split; [reflexivity |].
    apply (upload_succeeds demo_env
             {| args := [("filename", "malware.exe")];
                headers := [("X-Filename", "malware.exe")];
                data := [x4d; x5a] |}); vm_compute; done.
Qed.

(* ================================================================== *)
(** * [generar_csv]                                                    *)
(* ================================================================== *)

Section CsvFacts.

Implicit Types (names : list string) (row : pydict) (rows : list pydict).

Lemma keys_header names : Csv.keys (zip names (map PStr names)) = names.
Proof.
  unfold Csv.keys. induction names as [|k names IH]; simpl; [done |].
  by rewrite IH.
Qed.

Lemma get_header names k default :
  k ∈ names → Csv.get (zip names (map PStr names)) k default = PStr k.
Proof.
  induction names as [|k0 names IH]; simpl.
  - by intros ?%elem_of_nil.
  - intros Hin. case_bool_decide as Hk; [by subst |].
    apply elem_of_cons in Hin as [->|Hin]; [done | by apply IH].
Qed.

Lemma filter_none {A} (P : A → Prop) `{∀ x, Decision (P x)} (l : list A) :
  Forall (fun x => ¬ P x) l → filter P l = [].
Proof.
  induction 1 as [|x l Hx _ IH]; [done |].
  by rewrite filter_cons_False.
Qed.

(** A row with no key outside the columns is written, cell by cell in the
    order of the columns. *)
Lemma dict_to_list_ok names row :
  Forall (fun k => k ∈ names) (Csv.keys row) →
  Csv.dict_to_list names row
  = Ok (map (fun key => Csv.get row key (PStr EmptyString)) names).
Proof.
  intros Hkeys. unfold Csv.dict_to_list.
  rewrite filter_none; [done |].
  eapply Forall_impl; [exact Hkeys |]. by intros k Hk Hnot.
Qed.

Lemma writerow_ok names row output :
  Forall (fun k => k ∈ names) (Csv.keys row) →
  Csv.DictWriter_writerow names row output = Ok (output +:+ csv_record names row).
Proof.
  intros Hkeys. unfold Csv.DictWriter_writerow.
  by rewrite dict_to_list_ok.
Qed.

(** The header is the record of the column names themselves. *)
Lemma writeheader_ok names output :
  Csv.DictWriter_writeheader names output = Ok (output +:+ csv_header names).
Proof.
  unfold Csv.DictWriter_writeheader. rewrite writerow_ok.
  - unfold csv_record, csv_header. do 3 f_equal.
    apply map_ext_in. intros k Hk. apply get_header. by apply list_elem_of_In.
  - rewrite keys_header. by apply Forall_forall.
Qed.

Lemma writerows_ok names rows output :
  Forall (fun row => Forall (fun k => k ∈ names) (Csv.keys row)) rows →
  foldl (fun acc row =>
           output ← acc; Csv.DictWriter_writerow names row output)
        (Ok output) rows
  = Ok (output +:+ csv_body names rows).
Proof.
  intros Hrows. revert output.
  induction Hrows as [|row rows Hrow _ IH]; intros output; simpl.
  - by rewrite append_nil_r.
  - change (Ok output ≫= _) with (Csv.DictWriter_writerow names row output).
    rewrite writerow_ok by done. rewrite IH. by rewrite append_assoc.
Qed.

Lemma double_quotes_plain s :
  Csv.needs_quotes s = false → Csv.double_quotes s = s.
Proof.
  induction s as [|c s IH]; simpl; [done |].
  intros [Hc Hs]%orb_false_elim. unfold Csv.special in Hc.
  apply orb_false_elim in Hc as [[_ Hq]%orb_false_elim _].
  rewrite Hq. by rewrite IH.
Qed.

Lemma field_plain s : Csv.needs_quotes s = false → Csv.field s = s.
Proof.
  intros Hs. unfold Csv.field. rewrite Hs. by apply double_quotes_plain.
Qed.

Lemma join_comma_empty l :
  Str.join "," l = "" → l = [] ∨ l = [""].
Proof.
  destruct l as [|x [|y l]]; [by left | simpl; intros ->; by right |].
  change (Str.join "," (x :: y :: l)) with (x +:+ "," +:+ Str.join "," (y :: l)).
  destruct x; [rewrite append_nil_l|]; rewrite append_cons; discriminate.
Qed.

(** Column names with no special character stand in the header as they
    are, separated by commas. *)
Lemma csv_header_plain names :
  names ≠ [] → names ≠ [""] →
  Forall (fun k => Csv.needs_quotes k = false) names →
  csv_header names = Str.join "," names +:+ Csv.lineterminator.
Proof.
  intros Hne Hne' Hplain. unfold csv_header, Csv.writerow.
  rewrite map_map. cbn [Csv.text_of].
  assert (map (fun k => Csv.field k) names = names) as ->.
  { clear Hne Hne'. induction Hplain as [|k names Hk _ IH]; simpl; [done |].
    by rewrite field_plain, IH. }
  change (String Csv.delimiter "") with ",".
  destruct (decide (Str.join "," names = "")) as [Hj|Hj].
  - by apply join_comma_empty in Hj as [?|?].
  - rewrite (bool_decide_eq_false_2 (Str.join "," names = "")) by done.
    by rewrite andb_false_r.
Qed.

(** ** Reading back what the writer wrote *)

Lemma special_false c :
  Csv.special c = false →
  c ≠ CsvReader.comma ∧ c ≠ CsvReader.quote ∧ CsvReader.line_end c = false.
Proof.
  unfold Csv.special.
  intros [[Hd Hq]%orb_false_elim Hl]%orb_false_elim.
  apply bool_decide_eq_false in Hd, Hq.
  split; [done |]. split; [done |].
  unfold Csv.lineterminator in Hl. cbn [Str.contains_char] in Hl.
  destruct (decide (Csv.CR = c)) as [|Hcr]; [done |].
  destruct (decide (Csv.LF = c)) as [|Hlf]; [done |].
  unfold CsvReader.line_end.
  rewrite !bool_decide_eq_false_2; [done | |]; intros ->; done.
Qed.

Lemma line_end_char c :
  CsvReader.line_end c = true → c ≠ CsvReader.comma ∧ c ≠ CsvReader.quote.
Proof. intros H. split; intros ->; vm_compute in H; discriminate. Qed.

Lemma pair_eta {A B} (r : A * B) : (r.1, r.2) = r.
Proof. by destruct r. Qed.

Lemma scan_at_field_end st rest :
  CsvReader.at_field_end rest → st ≠ CsvReader.InQuoted →
  CsvReader.scan st rest = CsvReader.scan CsvReader.InField rest.
Proof.
  destruct rest as [|c rest]; [done |]. intros Hend Hst.
  destruct st; try done; cbn [CsvReader.scan].
  - destruct Hend as [->|Hl].
    + by rewrite bool_decide_eq_true_2.
    + destruct (line_end_char c Hl) as [Hc Hq].
      by rewrite (bool_decide_eq_false_2 _ Hc), Hl.
  - destruct Hend as [->|Hl].
    + by rewrite bool_decide_eq_false_2, bool_decide_eq_true_2.
    + destruct (line_end_char c Hl) as [Hc Hq].
      by rewrite (bool_decide_eq_false_2 _ Hc), (bool_decide_eq_false_2 _ Hq), Hl.
Qed.

Lemma scan_plain s rest :
  Csv.needs_quotes s = false →
  CsvReader.scan CsvReader.InField (s +:+ rest)
  = (s +:+ (CsvReader.scan CsvReader.InField rest).1,
     (CsvReader.scan CsvReader.InField rest).2).
Proof.
  induction s as [|c s IH]; intros Hs.
  - by rewrite !append_nil_l, pair_eta.
  - cbn [Csv.needs_quotes] in Hs. apply orb_false_elim in Hs as [Hc Hs].
    apply special_false in Hc as (Hcomma & _ & Hl).
    rewrite !append_cons. cbn [CsvReader.scan].
    rewrite (bool_decide_eq_false_2 _ Hcomma), Hl, IH by done. done.
Qed.

Lemma scan_quoted s rest :
  CsvReader.at_field_end rest →
  CsvReader.scan CsvReader.InQuoted
    (Csv.double_quotes s +:+ String CsvReader.quote rest)
  = (s +:+ (CsvReader.scan CsvReader.InField rest).1,
     (CsvReader.scan CsvReader.InField rest).2).
Proof.
  intros Hend. induction s as [|c s IH].
  - cbn [Csv.double_quotes]. rewrite !append_nil_l. cbn [CsvReader.scan].
    rewrite bool_decide_eq_true_2 by done.
    by rewrite scan_at_field_end, pair_eta.
  - cbn [Csv.double_quotes]. case_bool_decide as Hc.
    + subst c. rewrite !append_cons. cbn [CsvReader.scan].
      rewrite !bool_decide_eq_true_2 by done. by rewrite IH.
    + rewrite !append_cons. cbn [CsvReader.scan].
      rewrite bool_decide_eq_false_2 by done. by rewrite IH.
Qed.

(** A field is read back as the text it was written from. *)
Lemma scan_field s rest :
  CsvReader.at_field_end rest →
  CsvReader.scan CsvReader.StartField (Csv.field s +:+ rest)
  = (s +:+ (CsvReader.scan CsvReader.InField rest).1,
     (CsvReader.scan CsvReader.InField rest).2).
Proof.
  intros Hend. unfold Csv.field. destruct (Csv.needs_quotes s) eqn:Hs.
  - rewrite append_cons, append_assoc, append_cons, append_nil_l.
    cbn [CsvReader.scan].
    rewrite bool_decide_eq_false_2, bool_decide_eq_true_2 by done.
    by apply scan_quoted.
  - rewrite double_quotes_plain by done. destruct s as [|c s].
    + by rewrite !append_nil_l, scan_at_field_end, pair_eta.
    + cbn [Csv.needs_quotes] in Hs. apply orb_false_elim in Hs as [Hc Hs].
      apply special_false in Hc as (Hcomma & Hquote & Hl).
      rewrite !append_cons. cbn [CsvReader.scan].
      rewrite (bool_decide_eq_false_2 _ Hcomma), Hl,
        (bool_decide_eq_false_2 _ Hquote).
      by rewrite scan_plain.
Qed.

(** A record is read back as the texts of its fields. *)
Lemma scan_record name names c rest :
  CsvReader.line_end c = true →
  CsvReader.scan CsvReader.StartField
    (Str.join "," (map Csv.field (name :: names)) +:+ String c rest)
  = (name, names).
Proof.
  intros Hl. destruct (line_end_char c Hl) as [Hcomma _].
  revert name. induction names as [|name' names IH]; intros name.
  - cbn [map Str.join]. rewrite scan_field by (by right).
    cbn [CsvReader.scan]. rewrite (bool_decide_eq_false_2 _ Hcomma), Hl.
    by rewrite append_nil_r.
  - change (Str.join "," (map Csv.field (name :: name' :: names)))
      with (Csv.field name +:+ ","
            +:+ Str.join "," (map Csv.field (name' :: names))).
    rewrite !append_assoc, append_cons, append_nil_l.
    rewrite scan_field by (by left).
    cbn [CsvReader.scan]. rewrite bool_decide_eq_true_2 by done.
    rewrite IH. by rewrite append_nil_r.
Qed.

Lemma field_head s :
  s ≠ "" → ∃ c t, Csv.field s = String c t ∧ CsvReader.line_end c = false.
Proof.
  intros Hne. unfold Csv.field. destruct (Csv.needs_quotes s) eqn:Hs.
  - by eexists _, _.
  - rewrite double_quotes_plain by done.
    destruct s as [|c s]; [done |].
    cbn [Csv.needs_quotes] in Hs. apply orb_false_elim in Hs as [Hc _].
    apply special_false in Hc as (_ & _ & Hl). by exists c, s.
Qed.

Lemma record_head name names :
  (name, names) ≠ ("", []) →
  ∃ c t, Str.join "," (map Csv.field (name :: names)) = String c t
         ∧ CsvReader.line_end c = false.
Proof.
  intros Hne. destruct (decide (name = "")) as [->|Hname].
  - destruct names as [|name' names]; [done |].
    change (Str.join "," (map Csv.field ("" :: name' :: names)))
      with ("" +:+ "," +:+ Str.join "," (map Csv.field (name' :: names))).
    rewrite append_nil_l, append_cons. by eexists _, _.
  - destruct (field_head name Hname) as (c & t & Hf & Hl).
    destruct names as [|name' names].
    + by exists c, t.
    + change (Str.join "," (map Csv.field (name :: name' :: names)))
        with (Csv.field name +:+ ","
              +:+ Str.join "," (map Csv.field (name' :: names))).
      rewrite Hf, !append_cons. by eexists _, _.
Qed.

(** The header the writer wrote for the columns [names], read back. *)
Lemma header_row_written names body :
  CsvReader.header_row (csv_header names +:+ body) = names.
Proof.
  unfold csv_header, Csv.writerow. rewrite map_map. cbn [Csv.text_of].
  change (String Csv.delimiter "") with ",".
  destruct names as [|name names]; [done |].
  rewrite (bool_decide_eq_true_2 (_ ≠ [])), andb_true_l by done.
  change (map (fun k => Csv.field k) (name :: names))
    with (map Csv.field (name :: names)).
  destruct (decide ((name, names) = ("", []))) as [[= -> ->]|Hne]; [done |].
  destruct (record_head name names Hne) as (c & t & Hj & Hl).
  rewrite (bool_decide_eq_false_2 (_ = "")) by (by rewrite Hj).
  unfold CsvReader.header_row.
  assert (CsvReader.blank
            ((Str.join "," (map Csv.field (name :: names))
              +:+ Csv.lineterminator) +:+ body) = false) as ->.
  { rewrite Hj, !append_cons. exact Hl. }
  unfold Csv.lineterminator. rewrite append_assoc, append_cons.
  by rewrite scan_record.
Qed.

Lemma plain_needs_quotes s :
  CsvReader.plain s = true → Csv.needs_quotes s = false.
Proof.
  induction s as [|c s IH]; [done |]. cbn [CsvReader.plain Csv.needs_quotes].
  intros [[[Hcomma Hquote]%andb_prop Hl]%andb_prop Hs]%andb_prop.
  apply negb_true_iff in Hcomma, Hquote, Hl.
  rewrite IH, orb_false_r by done. unfold Csv.special.
  change Csv.delimiter with CsvReader.comma.
  change Csv.quotechar with CsvReader.quote.
  rewrite Hcomma, Hquote. cbn [orb].
  unfold CsvReader.line_end in Hl.
  apply orb_false_elim in Hl as [Hcr%bool_decide_eq_false Hlf%bool_decide_eq_false].
  unfold Csv.lineterminator. cbn [Str.contains_char].
  destruct (decide (Csv.CR = c)) as [<-|_]; [done |].
  by destruct (decide (Csv.LF = c)) as [<-|_].
Qed.

(** What [generar_csv] returns for rows with the same keys. *)
Lemma generar_csv_text first rest :
  uniform (first :: rest) →
  generar_csv (first :: rest)
  = Ok (csv_header (Csv.keys first)
        +:+ csv_body (Csv.keys first) (first :: rest)).
Proof.
  intros Huni. unfold generar_csv.
  rewrite writeheader_ok, append_nil_l.
  change (Ok (csv_header (Csv.keys first)) ≫= ?f)
    with (f (csv_header (Csv.keys first))).
  cbv beta. apply writerows_ok.
  apply Forall_forall. intros row Hrow.
  apply Forall_forall. intros k Hk.
  apply (Huni row first); [done | left | done].
Qed.

End CsvFacts.

Example generar_csv_two_rows :
  generar_csv [ [("name", PStr "a,b"); ("size", PInt 3)];
                [("size", PNone); ("name", PStr "c")] ]
  = Ok ("name,size" +:+ Csv.lineterminator
        +:+ String Csv.quotechar ("a,b" +:+ String Csv.quotechar ",3")
        +:+ Csv.lineterminator
        +:+ "c," +:+ Csv.lineterminator).
Proof. reflexivity. Qed.

Example generar_csv_extra_key :
  generar_csv [ [("name", PStr "a")]; [("name", PStr "b"); ("size", PInt 3)] ]
  = Raise (ValueError "dict contains fields not in fieldnames: 'size'").
Proof. reflexivity. Qed.

Example generar_csv_special_keys :
  generar_csv [ [("a,b", PInt 1); ("", PNone);
                 (String "034" "q" +:+ String "010" "", PStr "x")] ]
  = Ok (String "034" "a,b" +:+ String "034" ",,"
        +:+ String "034" (String "034" (String "034" "q"))
        +:+ String "010" (String "034" "") +:+ CsvReader.crlf
        +:+ "1,,x" +:+ CsvReader.crlf)
  ∧ CsvReader.header_row
      (String "034" "a,b" +:+ String "034" ",,"
       +:+ String "034" (String "034" (String "034" "q"))
       +:+ String "010" (String "034" "") +:+ CsvReader.crlf
       +:+ "1,,x" +:+ CsvReader.crlf)
    = ["a,b"; ""; String "034" "q" +:+ String "010" ""].
Proof. split; reflexivity. Qed.

(** C9: [generar_csv] returns the empty string for an empty sequence.
    For a non-empty sequence of rows with the same keys it returns, with
    no exception, a text whose header row, read as CSV, is the list of the
    keys of the first row in their order, whatever characters the keys
    hold.  When no key holds a comma, a quote or a line end, the text
    starts with the keys separated by commas and a line end (a lone empty
    key apart, which is written as a pair of quotes).  For the rows
    [{id: 1, name: ana}] and [{id: 2, name: None}] the text is
    [id,name], [1,ana], [2,], each followed by a line end. *)
Theorem generar_csv_header_row :
  generar_csv [] = Ok ""
  ∧ (∀ first rest,
       uniform (first :: rest) →
       ∃ text,
         generar_csv (first :: rest) = Ok text
         ∧ CsvReader.header_row text = map fst first)
  ∧ (∀ first rest,
       uniform (first :: rest) →
       map fst first ≠ [""] →
       Forall (fun k => CsvReader.plain k = true) (map fst first) →
       ∃ body,
         generar_csv (first :: rest)
         = Ok (Str.join "," (map fst first) +:+ CsvReader.crlf +:+ body))
  ∧ generar_csv [ [("id", PInt 1); ("name", PStr "ana")];
                  [("id", PInt 2); ("name", PNone)] ]
    = Ok ("id,name" +:+ CsvReader.crlf
          +:+ "1,ana" +:+ CsvReader.crlf
          +:+ "2," +:+ CsvReader.crlf).
Proof.
  split; [done |]. split; [|split; [|reflexivity]].
  - intros first rest Huni. eexists. split; [by apply generar_csv_text |].
    apply header_row_written.
  - intros first rest Huni Hne Hplain.
    exists (csv_body (Csv.keys first) (first :: rest)).
    rewrite generar_csv_text by done. f_equal. rewrite <- append_assoc. f_equal.
    change (Csv.keys first) with (map fst first).
    destruct (decide (map fst first = [])) as [->|Hnil]; [done |].
    apply csv_header_plain; [done | done |].
    eapply Forall_impl; [exact Hplain |]. apply plain_needs_quotes.
Qed.


(* ================================================================== *)
(** * More on the upload route                                         *)
(* ================================================================== *)

Section UploadCases.

Implicit Types (fs : filesystem) (content : list byte).

(** Every way the [with] block can go. *)
Lemma with_open_write_cases e fl fs content :
  with_open_write e fl "uploads/received_image.jpg" content fs =
  match open_fault fl with
  | Some c => (Raise (OSError c (Some "uploads/received_image.jpg")), fs)
  | None =>
      match fs !! cwd e with
      | Some Dir =>
          match fs !! upload_dir (cwd e) with
          | Some Dir =>
              match fs !! received_image (cwd e) with
              | Some Dir =>
                  (Raise (OSError EISDIR (Some "uploads/received_image.jpg")), fs)
              | _ =>
                  match write_fault fl with
                  | Some (c, n) =>
                      (Raise (OSError c None),
                       <[received_image (cwd e) := File (take n content)]> fs)
                  | None =>
                      (Ok tt, <[received_image (cwd e) := File content]> fs)
                  end
              end
          | Some (File _) =>
              (Raise (OSError ENOTDIR (Some "uploads/received_image.jpg")), fs)
          | None =>
              (Raise (OSError ENOENT (Some "uploads/received_image.jpg")), fs)
          end
      | Some (File _) =>
          (Raise (OSError ENOTDIR (Some "uploads/received_image.jpg")), fs)
      | None =>
          (Raise (OSError ENOENT (Some "uploads/received_image.jpg")), fs)
      end
  end.
Proof.
  unfold with_open_write, mbind, io_mbind, io_bind, Os.open_wb, Os.write_close.
  destruct (open_fault fl); [done |].
  rewrite namei_received.
  destruct (fs !! cwd e) as [[|]|]; try done.
  destruct (fs !! upload_dir (cwd e)) as [[|]|]; try done.
  destruct (fs !! received_image (cwd e)) as [[|]|]; try done;
    destruct (write_fault fl) as [[c n]|]; by rewrite insert_insert_eq.
Qed.

(** The block leaves the filesystem as it was, or with a regular file at
    the fixed location, where no directory stood. *)
Lemma with_open_write_effect e fl fs content r fs' :
  with_open_write e fl "uploads/received_image.jpg" content fs = (r, fs') →
  fs' = fs
  ∨ (fs !! received_image (cwd e) ≠ Some Dir
     ∧ ∃ stored, fs' = <[received_image (cwd e) := File stored]> fs).
Proof.
  rewrite with_open_write_cases.
  destruct (open_fault fl); [intros [= <- <-]; by left |].
  destruct (fs !! cwd e) as [[|]|]; try (intros [= <- <-]; by left).
  destruct (fs !! upload_dir (cwd e)) as [[|]|]; try (intros [= <- <-]; by left).
  destruct (fs !! received_image (cwd e)) as [[|]|] eqn:Hfile;
    try (intros [= <- <-]; by left);
    (destruct (write_fault fl) as [[c n]|]; intros [= <- <-]; right;
     (split; [done | eauto])).
Qed.

Lemma upload_effect e fl req fs :
  snd (POST_agregarImagen e fl req fs) = fs
  ∨ (fs !! received_image (cwd e) ≠ Some Dir
     ∧ ∃ stored,
         snd (POST_agregarImagen e fl req fs)
         = <[received_image (cwd e) := File stored]> fs).
Proof.
  unfold POST_agregarImagen.
  destruct (data req) as [|b rest] eqn:E.
  - rewrite agregar_imagen_empty by done. by left.
  - rewrite agregar_imagen_nonempty by (rewrite E; done).
    destruct (with_open_write e fl "uploads/received_image.jpg" (data req) fs)
      as [r fs'] eqn:W.
    apply with_open_write_effect in W.
    by destruct r as [[]|exc].
Qed.

(** X1.  Whatever the request and whatever fails, the upload route
    changes at most the one file [uploads/received_image.jpg]: every other
    location keeps its node, and the directories after the request are
    the directories before it (none is made, none is replaced). *)
Theorem upload_changes_one_file e fl req fs :
  (∀ p, p ≠ received_image (cwd e) →
        snd (POST_agregarImagen e fl req fs) !! p = fs !! p)
  ∧ (∀ p, snd (POST_agregarImagen e fl req fs) !! p = Some Dir
          ↔ fs !! p = Some Dir).
Proof.
  destruct (upload_effect e fl req fs) as [->|(Hfile & stored & ->)];
    [done |].
  split.
  - intros p Hp. by rewrite lookup_insert_ne.
  - intros p. destruct (decide (p = received_image (cwd e))) as [->|Hp].
    + rewrite lookup_insert_eq. split; [done | by intros ?].
    + by rewrite lookup_insert_ne.
Qed.

(** X2.  With no failure imposed by the operating system, what a non-empty
    upload does is settled by three nodes.  It is answered 200, and stores
    the body, exactly when the working directory holds a directory
    [uploads] in which [received_image.jpg] is not a directory.  In every
    other case it is answered 500 with the text of the exception of
    [open] (no such file, not a directory, is a directory) and the
    filesystem stays as it was: the upload directory is never made. *)
Theorem upload_outcome e req fs :
  data req ≠ [] →
  POST_agregarImagen e no_faults req fs =
  match fs !! cwd e with
  | Some Dir =>
      match fs !! upload_dir (cwd e) with
      | Some Dir =>
          match fs !! received_image (cwd e) with
          | Some Dir =>
              (json_response 500 "error"
                 (JStr "Failed to save image: [Errno 21] Is a directory: 'uploads/received_image.jpg'"),
               fs)
          | _ =>
              (json_response 200 "message"
                 (JStr "Image successfully saved at uploads/received_image.jpg"),
               <[received_image (cwd e) := File (data req)]> fs)
          end
      | Some (File _) =>
          (json_response 500 "error"
             (JStr "Failed to save image: [Errno 20] Not a directory: 'uploads/received_image.jpg'"),
           fs)
      | None =>
          (json_response 500 "error"
             (JStr "Failed to save image: [Errno 2] No such file or directory: 'uploads/received_image.jpg'"),
           fs)
      end
  | Some (File _) =>
      (json_response 500 "error"
         (JStr "Failed to save image: [Errno 20] Not a directory: 'uploads/received_image.jpg'"),
       fs)
  | None =>
      (json_response 500 "error"
         (JStr "Failed to save image: [Errno 2] No such file or directory: 'uploads/received_image.jpg'"),
       fs)
  end.
Proof.
  intros Hdata. unfold POST_agregarImagen.
  rewrite agregar_imagen_nonempty by done. rewrite with_open_write_cases.
  simpl. destruct (fs !! cwd e) as [[|]|]; try done.
  destruct (fs !! upload_dir (cwd e)) as [[|]|]; try done.
  by destruct (fs !! received_image (cwd e)) as [[|]|].
Qed.

Lemma upload_outcome_demo :
  POST_agregarImagen demo_env no_faults (demo_request [x41]) demo_fs_bare
  = (json_response 500 "error"
       (JStr "Failed to save image: [Errno 2] No such file or directory: 'uploads/received_image.jpg'"),
     demo_fs_bare).
Proof.
  rewrite (upload_outcome demo_env (demo_request [x41]) demo_fs_bare).
  - reflexivity.
  - discriminate.
Defined.


(** X4.  The write is not atomic.  [open(..., 'wb')] empties the file
    before the first byte is written, so when the write then fails after
    [n] bytes the route answers 500 and the stored image is gone: the
    file holds the first [n] bytes of the new body, whatever it held. *)
Theorem failed_write_truncates e fl req fs c n :
  data req ≠ [] →
  open_fault fl = None →
  write_fault fl = Some (c, n) →
  fs !! cwd e = Some Dir →
  fs !! upload_dir (cwd e) = Some Dir →
  fs !! received_image (cwd e) ≠ Some Dir →
  POST_agregarImagen e fl req fs
  = (json_response 500 "error"
       (JStr ("Failed to save image: " +:+ exn_str (OSError c None))),
     <[received_image (cwd e) := File (take n (data req))]> fs).
Proof.
  intros Hdata Hopen Hwrite Hcwd Hup Hfile. unfold POST_agregarImagen.
  rewrite agregar_imagen_nonempty by done.
  rewrite with_open_write_cases, Hopen, Hwrite, Hcwd, Hup.
  by destruct (fs !! received_image (cwd e)) as [[|]|].
Qed.

Lemma failed_write_truncates_demo :
  POST_agregarImagen demo_env
    {| open_fault := None; write_fault := Some (ENOSPC, 0); listdir_fault := None;
       stat_fault := None; read_fault := None |}
    (demo_request [x42; x42])
    (<[received_image (cwd demo_env) := File [x41]]> demo_fs)
  = (json_response 500 "error"
       (JStr "Failed to save image: [Errno 28] No space left on device"),
     <[received_image (cwd demo_env) := File []]>
       (<[received_image (cwd demo_env) := File [x41]]> demo_fs)).
Proof.
  apply (failed_write_truncates demo_env _ (demo_request [x42; x42]) _ ENOSPC 0).
  - discriminate.
  - reflexivity.
  - reflexivity.
  - reflexivity.
  - reflexivity.
  - discriminate.
Defined.

End UploadCases.

(* ================================================================== *)
(** * More on the listing and image routes                             *)
(* ================================================================== *)

Section ListAndServe.

Implicit Types (fs : filesystem) (filename n : string).

(** X5.  The listing route reads and never writes.  With no failure
    imposed by the operating system it answers 200 exactly when the
    working directory holds a directory [uploads], and 500 otherwise; for
    an upload directory with no entry the list is empty. *)
Theorem listing_outcome e fs :
  (∀ fl, snd (ver_imagenes e fl fs) = fs)
  ∧ (status (GET_verImagenes e no_faults fs) = 200%N
     ∨ status (GET_verImagenes e no_faults fs) = 500%N)
  ∧ (status (GET_verImagenes e no_faults fs) = 200%N
     ↔ fs !! cwd e = Some Dir ∧ fs !! upload_dir (cwd e) = Some Dir)
  ∧ (fs !! cwd e = Some Dir →
     fs !! upload_dir (cwd e) = Some Dir →
     (∀ n, fs !! (upload_dir (cwd e) ++ [n]) = None) →
     GET_verImagenes e no_faults fs = json_response 200 "imagenes" (JList [])).
Proof.
  split; [|split; [|split]].
  - intros fl. rewrite ver_imagenes_cases.
    pose proof (listdir_pure e fl UPLOAD_FOLDER fs) as Hpure.
    by destruct (Os.listdir e fl UPLOAD_FOLDER fs) as [[names|exc] fs'].
  - rewrite GET_verImagenes_eq.
    destruct (fst (Os.listdir e no_faults UPLOAD_FOLDER fs)); [by left | by right].
  - rewrite GET_verImagenes_eq, listdir_uploads. simpl.
    destruct (fs !! cwd e) as [[|]|]; try (split; [done | by intros [? ?]]).
    destruct (fs !! upload_dir (cwd e)) as [[|]|]; split; try done; by intros [? ?].
  - intros Hcwd Hup Hempty.
    rewrite GET_verImagenes_eq, listdir_uploads, Hcwd, Hup. simpl.
    rewrite (elem_of_nil_inv (Fs.entries fs (upload_dir (cwd e)))); [done |].
    intros n Hn%elem_of_entries. rewrite Hempty in Hn. by destruct Hn.
Qed.

(** X6.  After an upload answered 200 the listing names
    [received_image.jpg] beside what the upload directory held before,
    and nothing else, each name once. *)
Theorem listing_after_upload e fl req fs resp fs' :
  POST_agregarImagen e fl req fs = (resp, fs') →
  status resp = 200%N →
  ∃ names,
    GET_verImagenes e no_faults fs'
    = json_response 200 "imagenes" (JList (map JStr names))
    ∧ NoDup names
    ∧ ∀ n, n ∈ names
           ↔ n = "received_image.jpg"
             ∨ is_Some (fs !! (upload_dir (cwd e) ++ [n])).
Proof.
  intros Hpost Hok. apply upload_200 in Hpost as (Hcwd & Hup & ->); [|done].
  exists (Fs.entries (<[received_image (cwd e) := File (data req)]> fs)
            (upload_dir (cwd e))).
  split; [|split].
  - rewrite GET_verImagenes_eq, listdir_uploads. simpl.
    rewrite lookup_insert_ne by apply received_image_ne_base.
    rewrite lookup_insert_ne by apply received_image_ne_upload_dir.
    by rewrite Hcwd, Hup.
  - apply NoDup_entries.
  - intros n. rewrite elem_of_entries, received_image_child.
    destruct (decide (n = "received_image.jpg")) as [->|Hn].
    + rewrite lookup_insert_eq. split; [by left | eauto].
    + rewrite lookup_insert_ne by (intros ?; simplify_list_eq; done).
      split; [by right | by intros [?|?]].
Qed.

Lemma listing_after_upload_demo :
  ∃ names,
    GET_verImagenes demo_env no_faults
      (<[received_image (cwd demo_env) := File [x41]]> demo_fs_mixed)
    = json_response 200 "imagenes" (JList (map JStr names))
    ∧ NoDup names
    ∧ ∀ n, n ∈ names
           ↔ n = "received_image.jpg"
             ∨ is_Some (demo_fs_mixed !! (upload_dir (cwd demo_env) ++ [n])).
Proof.
  apply (listing_after_upload demo_env no_faults (demo_request [x41]) demo_fs_mixed
           (json_response 200 "message"
              (JStr "Image successfully saved at uploads/received_image.jpg"))).
  - apply upload_succeeds; vm_compute; done.
  - reflexivity.
Defined.

(** X7.  For a plain name (no slash, not [.] or [..]) the image route
    looks at the entry of that name in the upload directory under
    [app.root_path].  When it is a regular file and nothing fails, the
    answer is 200 with its bytes.  When there is no such entry, when the
    entry is a directory, when the upload directory does not exist or
    when the [stat] of [os.path.isfile] fails, the answer is the page of
    [NotFound].  When the file is found and opening or reading it fails,
    the answer is the JSON [Imagen no encontrada] with 404 if the failure
    is that the file is gone, and the page of an internal error (500) for
    any other failure. *)
Theorem fetch_by_name e fl filename fs :
  entry_name filename →
  GET_verImagen e fl filename fs =
  match stat_fault fl with
  | Some _ => not_found_page
  | None =>
      match fs !! root_path e with
      | Some Dir =>
          match fs !! upload_dir (root_path e) with
          | Some Dir =>
              match fs !! (upload_dir (root_path e) ++ [filename]) with
              | Some (File content) =>
                  match read_fault fl with
                  | Some ENOENT =>
                      json_response 404 "error" (JStr "Imagen no encontrada")
                  | Some _ => internal_error_page
                  | None => {| status := 200; payload := BFile content |}
                  end
              | _ => not_found_page
              end
          | _ => not_found_page
          end
      | _ => not_found_page
      end
  end.
Proof.
  intros Hname. rewrite GET_verImagen_entry_name by done.
  unfold read_failure_response. reflexivity.
Qed.

Lemma fetch_by_name_demo :
  GET_verImagen demo_env no_faults "notes.txt" demo_fs_mixed
  = {| status := 200; payload := BFile [x68; x69] |}
  ∧ GET_verImagen demo_env no_faults "old" demo_fs_mixed = not_found_page
  ∧ GET_verImagen demo_env
      {| open_fault := None; write_fault := None; listdir_fault := None;
         stat_fault := None; read_fault := Some EACCES |}
      "notes.txt" demo_fs_mixed
    = internal_error_page.
Proof.
  split; [|split].
  - rewrite (fetch_by_name demo_env no_faults "notes.txt" demo_fs_mixed);
      [reflexivity | by repeat split].
  - rewrite (fetch_by_name demo_env no_faults "old" demo_fs_mixed);
      [reflexivity | by repeat split].
  - rewrite (fetch_by_name demo_env _ "notes.txt" demo_fs_mixed);
      [reflexivity | by repeat split].
Defined.

(** X8.  Listing and fetching agree on files and not on directories: in
    a service started from its own directory, a plain name the listing
    returned names a regular file or a subdirectory.  A subdirectory is
    answered with the page of [NotFound].  A regular file is served with
    its bytes when nothing fails; it gets the page of [NotFound] when the
    [stat] fails, and what a failed read leads to (the JSON
    [Imagen no encontrada] or the page of an internal error) when opening
    or reading it fails. *)
Theorem listed_name_fetch e fl fl' fs names fs' n :
  root_path e = cwd e →
  Os.listdir e fl UPLOAD_FOLDER fs = (Ok names, fs') →
  n ∈ names →
  entry_name n →
  (∃ content,
     fs !! (upload_dir (cwd e) ++ [n]) = Some (File content)
     ∧ GET_verImagen e fl' n fs
       = match stat_fault fl' with
         | Some _ => not_found_page
         | None =>
             match read_fault fl' with
             | Some c => read_failure_response c
             | None => {| status := 200; payload := BFile content |}
             end
         end)
  ∨ (fs !! (upload_dir (cwd e) ++ [n]) = Some Dir
     ∧ GET_verImagen e fl' n fs = not_found_page).
Proof.
  intros Hroot Hlist Hn Hname.
  rewrite GET_verImagen_entry_name, Hroot by done.
  rewrite listdir_uploads in Hlist.
  destruct (listdir_fault fl); [done |].
  destruct (fs !! cwd e) as [[|]|]; try done.
  destruct (fs !! upload_dir (cwd e)) as [[|]|]; try done.
  injection Hlist as <- <-.
  apply elem_of_entries in Hn as [[content|] Hnode]; rewrite Hnode.
  - left. by exists content.
  - right. by destruct (stat_fault fl').
Qed.

Lemma listed_name_fetch_demo :
  (∃ content,
     demo_fs_mixed !! (upload_dir (cwd demo_env) ++ ["old"]) = Some (File content)
     ∧ GET_verImagen demo_env no_faults "old" demo_fs_mixed
       = {| status := 200; payload := BFile content |})
  ∨ (demo_fs_mixed !! (upload_dir (cwd demo_env) ++ ["old"]) = Some Dir
     ∧ GET_verImagen demo_env no_faults "old" demo_fs_mixed = not_found_page).
Proof.
  apply (listed_name_fetch demo_env no_faults no_faults demo_fs_mixed
           (Fs.entries demo_fs_mixed (upload_dir (cwd demo_env))) demo_fs_mixed).
  - reflexivity.
  - by rewrite listdir_uploads.
  - apply elem_of_entries. by exists Dir.
  - by repeat split.
Defined.

(** X9.  [open] takes [uploads] from the working directory of the process
    and [send_from_directory] from the directory of the application.  In
    a service started elsewhere, an upload answered 200 is stored where
    the image route does not look: unless the application's own upload
    directory already holds a [received_image.jpg], fetching it right
    after the upload is answered with the page of [NotFound]. *)
Theorem upload_elsewhere_not_served e fl fl' req fs resp fs' :
  root_path e ≠ cwd e →
  POST_agregarImagen e fl req fs = (resp, fs') →
  status resp = 200%N →
  fs !! received_image (root_path e) = None →
  GET_verImagen e fl' "received_image.jpg" fs' = not_found_page.
Proof.
  intros Hroot Hpost Hok Hnone.
  apply upload_200 in Hpost as (_ & _ & ->); [|done].
  apply missing_entry_not_found; [apply received_name_is_entry_name |].
  rewrite <- received_image_child. rewrite lookup_insert_ne; [done |].
  unfold received_image. intros H. by apply app_inv_tail in H.
Qed.

Lemma upload_elsewhere_demo :
  GET_verImagen {| cwd := ["srv"]; root_path := ["srv"; "app"] |} no_faults
    "received_image.jpg"
    (<[ ["srv"; "uploads"; "received_image.jpg"] := File [x41] ]>
       (<[ ["srv"; "uploads"] := Dir ]> demo_fs))
  = not_found_page.
Proof.
  apply (upload_elsewhere_not_served
           {| cwd := ["srv"]; root_path := ["srv"; "app"] |} no_faults no_faults
           (demo_request [x41]) (<[ ["srv"; "uploads"] := Dir ]> demo_fs)
           (json_response 200 "message"
              (JStr "Image successfully saved at uploads/received_image.jpg"))).
  - discriminate.
  - apply upload_succeeds; vm_compute; done.
  - reflexivity.
  - reflexivity.
Defined.

End ListAndServe.

(* ================================================================== *)
(** * More on [allowed_file], [generar_csv] and [build_csv]            *)
(* ================================================================== *)

Section Misc.

Lemma lower_char_idempotent c :
  Str.lower_char (Str.lower_char c) = Str.lower_char c.
Proof. by destruct c as [[] [] [] [] [] [] [] []]. Qed.

Lemma lower_char_dot c : Str.lower_char c = "."%char ↔ c = "."%char.
Proof. by destruct c as [[] [] [] [] [] [] [] []]. Qed.

Lemma lower_idempotent s : Str.lower (Str.lower s) = Str.lower s.
Proof.
  induction s as [|c s IH]; cbn [Str.lower]; [done |].
  by rewrite lower_char_idempotent, IH.
Qed.

Lemma contains_dot_lower s :
  Str.contains_char "." (Str.lower s) = Str.contains_char "." s.
Proof.
  induction s as [|c s IH]; cbn [Str.lower Str.contains_char]; [done |].
  destruct (decide (Str.lower_char c = "."%char)) as [Hl|Hl];
    destruct (decide (c = "."%char)) as [Hc|Hc]; try done.
  - exfalso. apply Hc. by apply lower_char_dot.
  - exfalso. apply Hl. by apply lower_char_dot.
Qed.

(** Lowering the name lowers both sides of the cut at the last dot. *)
Lemma rcut_lower s :
  Str.rcut "." (Str.lower s)
  = match Str.rcut "." s with
    | Some (before, after) => Some (Str.lower before, Str.lower after)
    | None => None
    end.
Proof.
  induction s as [|c s IH]; cbn [Str.lower Str.rcut]; [done |].
  rewrite IH. destruct (Str.rcut "." s) as [[before after]|]; [done |].
  destruct (decide (Str.lower_char c = "."%char)) as [Hl|Hl];
    destruct (decide (c = "."%char)) as [Hc|Hc]; try done.
  - exfalso. apply Hc. by apply lower_char_dot.
  - exfalso. apply Hl. by apply lower_char_dot.
Qed.

(** X10.  [allowed_file] does not look at the case of letters: a name and
    its lowercased form get the same answer. *)
Theorem allowed_file_ignores_case filename :
  allowed_file (Str.lower filename) = allowed_file filename.
Proof.
  destruct (Str.rcut "." filename) as [[before ext]|] eqn:Hcut.
  - rewrite (allowed_file_cut filename before ext) by done.
    rewrite (allowed_file_cut (Str.lower filename) (Str.lower before) (Str.lower ext))
      by (by rewrite rcut_lower, Hcut).
    by rewrite lower_idempotent.
  - apply rcut_None in Hcut.
    rewrite (allowed_file_no_dot filename) by done.
    apply allowed_file_no_dot. by rewrite contains_dot_lower.
Qed.

Implicit Types (names : list string) (row : pydict) (rows : list pydict).

Lemma filter_nil_Forall {A} (P : A → Prop) `{∀ x, Decision (P x)} (l : list A) :
  filter P l = [] → Forall (fun x => ¬ P x) l.
Proof.
  induction l as [|x l IH]; [done |].
  rewrite filter_cons. destruct (decide (P x)); [done |].
  intros Hl. constructor; [done | by apply IH].
Qed.

(** A row is written, or refused for a key outside the columns. *)
Lemma dict_to_list_cases names row :
  (Forall (fun k => k ∈ names) (Csv.keys row)
   ∧ Csv.dict_to_list names row
     = Ok (map (fun key => Csv.get row key (PStr EmptyString)) names))
  ∨ (¬ Forall (fun k => k ∈ names) (Csv.keys row)
     ∧ ∃ msg, Csv.dict_to_list names row = Raise (ValueError msg)).
Proof.
  unfold Csv.dict_to_list.
  destruct (filter (fun k => k ∉ names) (Csv.keys row)) as [|k wrong] eqn:Hf.
  - left. split; [|done]. apply filter_nil_Forall in Hf.
    eapply Forall_impl; [exact Hf |]. intros k Hk. simpl in Hk.
    by destruct (decide (k ∈ names)).
  - right. split; [|eauto]. intros Hall.
    assert (k ∈ filter (fun k => k ∉ names) (Csv.keys row)) as Hk
      by (rewrite Hf; left).
    apply list_elem_of_filter in Hk as [Hnot Hin].
    by apply (proj1 (Forall_forall _ _) Hall) in Hin.
Qed.

Lemma writerows_raise names rows exc :
  foldl (fun acc row =>
           output ← acc; Csv.DictWriter_writerow names row output)
        (Raise exc) rows
  = Raise exc.
Proof. induction rows as [|row rows IH]; [done | exact IH]. Qed.

Lemma writerows_cases names rows output :
  (Forall (fun row => Forall (fun k => k ∈ names) (Csv.keys row)) rows
   ∧ foldl (fun acc row =>
              output ← acc; Csv.DictWriter_writerow names row output)
           (Ok output) rows
     = Ok (output +:+ csv_body names rows))
  ∨ (¬ Forall (fun row => Forall (fun k => k ∈ names) (Csv.keys row)) rows
     ∧ ∃ msg,
         foldl (fun acc row =>
                  output ← acc; Csv.DictWriter_writerow names row output)
               (Ok output) rows
         = Raise (ValueError msg)).
Proof.
  revert output. induction rows as [|row rows IH]; intros output.
  - left. split; [constructor | by apply writerows_ok].
  - destruct (dict_to_list_cases names row) as [[Hrow Hok]|(Hrow & msg & Hbad)].
    + destruct (IH (output +:+ csv_record names row)) as [[Hrows Hgo]|(Hrows & msg & Hgo)].
      * left. split; [by constructor |]. by apply writerows_ok; constructor.
      * right. split; [by intros [_ ?]%Forall_cons |]. exists msg.
        simpl. change (Ok output ≫= _) with (Csv.DictWriter_writerow names row output).
        by rewrite writerow_ok.
    + right. split; [by intros [? _]%Forall_cons |]. exists msg.
      simpl. change (Ok output ≫= _) with (Csv.DictWriter_writerow names row output).
      unfold Csv.DictWriter_writerow. rewrite Hbad.
      apply writerows_raise.
Qed.

Lemma get_missing row key default :
  key ∉ Csv.keys row → Csv.get row key default = default.
Proof.
  induction row as [|[k v] row IH]; [done |]. simpl.
  intros Hnot. case_bool_decide as Hk.
  - subst. exfalso. apply Hnot. left.
  - apply IH. intros Hin. apply Hnot. by right.
Qed.

(** X11.  The first row fixes the columns.  [generar_csv] returns the CSV
    text exactly when no later row has a key that the first row lacks,
    and raises [ValueError] when one has; a key of the first row that a
    row lacks is no error, the cell of that column takes the empty
    string. *)
Theorem generar_csv_columns first rest :
  ((Forall (fun row => Forall (fun k => k ∈ Csv.keys first) (Csv.keys row)) rest
    ∧ generar_csv (first :: rest)
      = Ok (csv_header (Csv.keys first)
            +:+ csv_body (Csv.keys first) (first :: rest)))
   ∨ (¬ Forall (fun row => Forall (fun k => k ∈ Csv.keys first) (Csv.keys row)) rest
      ∧ ∃ msg, generar_csv (first :: rest) = Raise (ValueError msg)))
  ∧ (∀ row key,
       key ∉ Csv.keys row → Csv.get row key (PStr EmptyString) = PStr EmptyString).
Proof.
  split; [|intros row key; apply get_missing].
  unfold generar_csv. rewrite writeheader_ok, append_nil_l.
  change (Ok (csv_header (Csv.keys first)) ≫= ?f)
    with (f (csv_header (Csv.keys first))).
  cbv beta.
  assert (Forall (fun k => k ∈ Csv.keys first) (Csv.keys first)) as Hfirst
    by (by apply Forall_forall).
  destruct (writerows_cases (Csv.keys first) (first :: rest)
              (csv_header (Csv.keys first)))
    as [[Hrows Hgo]|(Hrows & msg & Hgo)].
  - left. split; [by apply Forall_cons in Hrows as [_ ?] | done].
  - right. split; [|eauto]. intros Hrest. apply Hrows. by constructor.
Qed.

Example generar_csv_missing_key :
  generar_csv [ [("name", PStr "a"); ("size", PInt 3)]; [("name", PStr "b")] ]
  = Ok ("name,size" +:+ Csv.lineterminator
        +:+ "a,3" +:+ Csv.lineterminator
        +:+ "b," +:+ Csv.lineterminator).
Proof. reflexivity. Qed.

Implicit Types (bytes written : list byte).

Lemma lines_concat bytes : concat (BytesIO.lines bytes) = bytes.
Proof.
  induction bytes as [|b rest IH]; simpl; [done |].
  case_bool_decide as Hb.
  - simpl. by rewrite IH.
  - destruct (BytesIO.lines rest) as [|line more]; simpl in *.
    + by rewrite <- IH.
    + by rewrite <- IH.
Qed.

(** What a line is: bytes with no newline among them, then a newline; the
    last line may end without one, and then it is not empty. *)
Lemma lines_shape bytes :
  Forall (fun line =>
            ∃ text, (BytesIO.newline ∉ text)
                    ∧ (line = text ++ [BytesIO.newline] ∨ (line = text ∧ text ≠ [])))
         (BytesIO.lines bytes).
Proof.
  induction bytes as [|b rest IH]; simpl; [constructor |].
  case_bool_decide as Hb.
  - constructor; [|done]. exists []. split; [by intros ?%elem_of_nil |].
    left. simpl. by f_equal.
  - destruct (BytesIO.lines rest) as [|line more].
    + constructor; [|done]. exists [b]. split; [|by right].
      intros Hin%list_elem_of_singleton. by apply Hb.
    + apply Forall_cons in IH as [(text & Htext & Hline) Hmore].
      constructor; [|done]. exists (b :: text). split.
      * intros [Hin|Hin]%elem_of_cons; [by apply Hb | done].
      * destruct Hline as [->|[-> ?]]; [by left | by right].
Qed.

(** Only the last line can lack its newline. *)
Lemma lines_terminated bytes i line :
  BytesIO.lines bytes !! i = Some line →
  S i < length (BytesIO.lines bytes) →
  last line = Some BytesIO.newline.
Proof.
  revert i line. induction bytes as [|b rest IH]; intros i line; simpl; [done |].
  case_bool_decide as Hb.
  - destruct i as [|i]; simpl.
    + intros [= <-] _. by rewrite Hb.
    + intros Hline Hlen. apply (IH i); [done | lia].
  - destruct (BytesIO.lines rest) as [|first more] eqn:Hrest.
    + destruct i; simpl; [lia | done].
    + destruct i as [|i]; simpl.
      * intros [= <-] Hlen.
        assert (last first = Some BytesIO.newline) as Hlast
          by (apply (IH 0); simpl; [done | lia]).
        destruct first; [done | done].
      * intros Hline Hlen. apply (IH (S i)); simpl; [done | lia].
Qed.

Lemma build_csv_lines written : build_csv written = BytesIO.lines written.
Proof.
  unfold build_csv, BytesIO.iterate, BytesIO.seek, BytesIO.write, BytesIO.new.
  simpl. by rewrite drop_nil, app_nil_r.
Qed.

(** X12.  [build_csv] loses and adds nothing: the chunks it yields, put
    end to end, are the bytes [to_csv] wrote.  Each chunk is one line,
    bytes with no newline followed by one newline, but for the last chunk,
    which may end without a newline and is then not empty; nothing is
    yielded when nothing was written. *)
Theorem build_csv_chunks written :
  concat (build_csv written) = written
  ∧ Forall (fun line =>
              ∃ text, (BytesIO.newline ∉ text)
                      ∧ (line = text ++ [BytesIO.newline]
                         ∨ (line = text ∧ text ≠ [])))
           (build_csv written)
  ∧ (∀ i line,
       build_csv written !! i = Some line →
       S i < length (build_csv written) →
       last line = Some BytesIO.newline)
  ∧ (build_csv written = [] ↔ written = []).
Proof.
  rewrite build_csv_lines. split; [apply lines_concat |].
  split; [apply lines_shape |]. split; [apply lines_terminated |].
  split.
  - intros Hnil. by rewrite <- (lines_concat written), Hnil.
  - by intros ->.
Qed.

Example build_csv_three_lines :
  build_csv [x61; x2c; x62; x0a; x31; x2c; x32; x0a; x33]
  = [[x61; x2c; x62; x0a]; [x31; x2c; x32; x0a]; [x33]].
Proof. reflexivity. Qed.

End Misc.
